(** * OceanDrift3D: the per-step update of the passive-tracer drift model

    A shallow embedding of [opendrift/models/oceandrift3D.py]: the element
    variables registered at import time, the configuration defaults of
    [configspec], [update_terminal_velocity] and [update].

    The methods [update] calls on [self] that live in the framework's base
    classes (the advection and mixing solvers, [deactivate_elements]) are
    not part of this module; they appear below as an interface record
    ([Solvers]) and as definitions modelled from the specification. *)

From Stdlib Require Import ZArith.
From Stdlib Require QArith.
From stdpp Require Import base list strings gmap.

Local Open Scope string_scope.
Local Open Scope list_scope.

(** ** Numbers

    Element attributes are [np.float32] arrays and the time step is a Python
    float.  The development is parametric in the number type and in the
    operations the module applies to it: literals, [+=], [==] and [>=]. *)

Class Number (F : Type) := {
  of_Z : Z → F;
  fadd : F → F → F;
  feqb : F → F → bool;
  fgeb : F → F → bool
}.

(** Integers as numbers, used to run the model on concrete ensembles. *)
#[export] Instance Z_Number : Number Z := {
  of_Z := λ n, n;
  fadd := Z.add;
  feqb := Z.eqb;
  fgeb := Z.geb
}.

(** ** Python values held by dictionaries of the module *)

Inductive pyval (F : Type) : Type :=
  | PyNone
  | PyBool (b : bool)
  | PyInt (n : Z)
  | PyFloat (x : F)
  | PyStr (s : string)
  | NpFloat32.

Arguments PyNone {F}.
Arguments PyBool {F} b.
Arguments PyInt {F} n.
Arguments PyFloat {F} x.
Arguments PyStr {F} s.
Arguments NpFloat32 {F}.

(** [v is True]: identity with the singleton [True]. *)
Definition is_True {F} (v : pyval F) : bool :=
  match v with
  | PyBool true => true
  | _ => false
  end.

(** ** Data model *)

Inductive Status : Type :=
  | Active
  | Deactivated (reason : string).

#[export] Instance Status_eq_dec : EqDecision Status.
Proof. solve_decision. Defined.

Definition is_active (st : Status) : bool :=
  match st with
  | Active => true
  | Deactivated _ => false
  end.

Section Model.
Context {F : Type} `{Number F}.

Record Position : Type := mkPosition {
  lon : F;
  lat : F;
  z : F
}.

(** One row of [self.elements] (a [LagrangianArray]: one array per
    variable, all of one length).  Arithmetic on an attribute of
    [self.elements] is the elementwise map over the rows. *)
Record Element : Type := mkElement {
  position : Position;
  age_seconds : F;
  wind_drift_factor : F;
  terminal_velocity : F;
  status : Status
}.

Definition set_position (p : Position) (e : Element) : Element :=
  mkElement p (age_seconds e) (wind_drift_factor e) (terminal_velocity e)
            (status e).

Definition set_z (z' : F) (e : Element) : Element :=
  set_position (mkPosition (lon (position e)) (lat (position e)) z') e.

Definition set_age_seconds (a : F) (e : Element) : Element :=
  mkElement (position e) a (wind_drift_factor e) (terminal_velocity e)
            (status e).

Definition set_terminal_velocity (w : F) (e : Element) : Element :=
  mkElement (position e) (age_seconds e) (wind_drift_factor e) w (status e).

Definition set_status (st : Status) (e : Element) : Element :=
  mkElement (position e) (age_seconds e) (wind_drift_factor e)
            (terminal_velocity e) st.

(** One row of [self.environment]: [required_variables]. *)
Record Env : Type := mkEnv {
  x_sea_water_velocity : F;
  y_sea_water_velocity : F;
  x_wind : F;
  y_wind : F;
  upward_sea_water_velocity : F;
  ocean_vertical_diffusivity : F;
  sea_floor_depth_below_sea_level : F;
  land_binary_mask : F
}.

Definition set_diffusivity (k : F) (v : Env) : Env :=
  mkEnv (x_sea_water_velocity v) (y_sea_water_velocity v) (x_wind v)
        (y_wind v) (upward_sea_water_velocity v) k
        (sea_floor_depth_below_sea_level v) (land_binary_mask v).

Definition set_wind (wx wy : F) (v : Env) : Env :=
  mkEnv (x_sea_water_velocity v) (y_sea_water_velocity v) wx wy
        (upward_sea_water_velocity v) (ocean_vertical_diffusivity v)
        (sea_floor_depth_below_sea_level v) (land_binary_mask v).

Definition set_land (l : F) (v : Env) : Env :=
  mkEnv (x_sea_water_velocity v) (y_sea_water_velocity v) (x_wind v)
        (y_wind v) (upward_sea_water_velocity v)
        (ocean_vertical_diffusivity v) (sea_floor_depth_below_sea_level v) l.


(** [required_profiles]: the diffusivity of one element over the depth
    levels of [required_profiles_z_range]. *)
Definition Profile : Type := list F.

(** [configspec].  The two process flags are kept as Python values: the
    gates of [update] test them with [is True].  [max_age_seconds] is
    [float(min=0, default=None)]: [None] or a number. *)
Record DriftConfig : Type := mkDriftConfig {
  scheme : string;
  max_age_seconds : option F
}.

Record ProcessesConfig : Type := mkProcessesConfig {
  turbulentmixing : pyval F;
  verticaladvection : pyval F
}.

Record MixingConfig : Type := mkMixingConfig {
  timestep : F;
  verticalresolution : F;
  diffusivitymodel : string
}.

Record Config : Type := mkConfig {
  drift : DriftConfig;
  processes : ProcessesConfig;
  mixing : MixingConfig
}.

(** The defaults written in [configspec]. *)
Definition default_config : Config :=
  mkConfig (mkDriftConfig "euler" None)
           (mkProcessesConfig (PyBool false) (PyBool true))
           (mkMixingConfig (of_Z 1) (of_Z 1) "environment").

End Model.

Arguments Position F : clear implicits.
Arguments Element F : clear implicits.
Arguments Env F : clear implicits.
Arguments Profile F : clear implicits.
Arguments DriftConfig F : clear implicits.
Arguments ProcessesConfig F : clear implicits.
Arguments MixingConfig F : clear implicits.
Arguments Config F : clear implicits.

(** ** The simulation object and the collaborators of [update] *)

Section Simulation.
Context {F : Type} `{Number F} {Rng : Type}.

(** The part of [self] that [update] reads or writes.  [time_step] is the
    step duration in seconds ([self.time_step.total_seconds()]); [rng] is
    the state of the random generator the mixing solver draws from. *)
Record Sim : Type := mkSim {
  elements : list (Element F);
  environment : list (Env F);
  environment_profiles : list (Profile F);
  config : Config F;
  time_step : F;
  rng : Rng
}.

Definition set_elements (es : list (Element F)) (s : Sim) : Sim :=
  mkSim es (environment s) (environment_profiles s) (config s)
        (time_step s) (rng s).

(** The sub-steps one call of [update] can execute, in the order of the
    statements that execute them. *)
Inductive Substep : Type :=
  | AgeAccrual
  | AdvectOceanCurrent
  | AdvectWind
  | UpdateTerminalVelocity
  | VerticalMixing
  | VerticalAdvection
  | DeactivateElements (reason : string).

#[export] Instance Substep_eq_dec : EqDecision Substep.
Proof. solve_decision. Defined.

(** Statements of a method of [self]: a state transformer that also records
    the sub-steps it executed. *)
Definition M (A : Type) : Type := Sim → A * Sim * list Substep.

#[export] Instance M_ret : MRet M := λ A a s, (a, s, []).

#[export] Instance M_bind : MBind M := λ A B k m s,
  let '(a, s1, t1) := m s in
  let '(b, s2, t2) := k a s1 in
  (b, s2, (t1 ++ t2)%list).

Definition gets {A} (f : Sim → A) : M A := λ s, (f s, s, []).

Definition step (c : Substep) (f : Sim → Sim) : M () := λ s, ((), f s, [c]).

Definition exec {A} (m : M A) (s : Sim) : Sim := (m s).1.2.

Definition trace {A} (m : M A) (s : Sim) : list Substep := (m s).2.

(** *** Solvers of the base classes *)

(** Modelled from the spec: [advect_ocean_current], [advect_wind],
    [vertical_mixing] and [vertical_advection] are methods of the base
    classes of [OceanDrift3D] and are not in this module.  The record holds
    the per-element function of each, with the inputs and the output its
    contract lists: every element is updated from its own state and its own
    environment sample. *)
Record Solvers : Type := mkSolvers {
  (** scheme, dt, x and y sea water velocity, position: new position *)
  current_advector : string → F → F → F → Position F → Position F;
  (** dt, x and y wind, wind drift factor, position: new position *)
  wind_advector : F → F → F → F → Position F → Position F;
  (** generator, mixing configuration, dt, diffusivity at the element and
      its profile, terminal velocity, position: new depth and generator *)
  turbulent_mixer : Rng → MixingConfig F → F → F → Profile F → F →
                    Position F → F * Rng;
  (** dt, upward sea water velocity, position: new depth *)
  vertical_advector : F → F → Position F → F
}.

Variable solvers : Solvers.

(** A solver is applied to element [i] with row [i] of the environment; the
    ensemble keeps its length and order.  The arrays of a well-formed state
    have one length; a row without an environment sample is left as it
    is. *)
Definition with_environment (f : Env F → Element F → Element F)
    (s : Sim) : list (Element F) :=
  imap (λ i e, match environment s !! i with
               | Some v => f v e
               | None => e
               end) (elements s).

(** Modelled from the spec: the current advector of the base class, which
    displaces every row of the ensemble by the ambient current over the
    step duration, with the integration scheme of the configuration. *)
Definition advect_ocean_current : M () :=
  step AdvectOceanCurrent (λ s,
    set_elements
      (with_environment (λ v e,
         set_position
           (current_advector solvers (scheme (drift (config s))) (time_step s)
              (x_sea_water_velocity v) (y_sea_water_velocity v) (position e))
           e) s) s).

(** Modelled from the spec: the wind advector of the base class, which
    displaces every row by the wind at its position, scaled by the row's own
    drift factor, over the step duration. *)
Definition advect_wind : M () :=
  step AdvectWind (λ s,
    set_elements
      (with_environment (λ v e,
         set_position
           (wind_advector solvers (time_step s) (x_wind v) (y_wind v)
              (wind_drift_factor e) (position e))
           e) s) s).

(** Modelled from the spec: the turbulent mixer of the base class, a
    stochastic vertical displacement from the terminal velocity, the
    diffusivity and the mixing parameters.  It visits the rows in order and
    threads the random generator through them. *)
Fixpoint mix_from (s : Sim) (i : nat) (g : Rng) (es : list (Element F))
    : list (Element F) * Rng :=
  match es with
  | [] => ([], g)
  | e :: es' =>
      match environment s !! i with
      | Some v =>
          let '(z', g') :=
            turbulent_mixer solvers g (mixing (config s)) (time_step s)
              (ocean_vertical_diffusivity v)
              (default [] (environment_profiles s !! i))
              (terminal_velocity e) (position e) in
          let '(r, g'') := mix_from s (S i) g' es' in
          (set_z z' e :: r, g'')
      | None =>
          let '(r, g') := mix_from s (S i) g es' in
          (e :: r, g')
      end
  end.

(** Modelled from the spec: [vertical_mixing] gives every row the depth the
    mixer computes and keeps the generator the mixer leaves. *)
Definition vertical_mixing : M () :=
  step VerticalMixing (λ s,
    let r := mix_from s 0 (rng s) (elements s) in
    mkSim r.1 (environment s) (environment_profiles s) (config s)
          (time_step s) r.2).

(** Modelled from the spec: the vertical advector of the base class, a
    deterministic vertical displacement from the vertical velocity of the
    environment. *)
Definition vertical_advection : M () :=
  step VerticalAdvection (λ s,
    set_elements
      (with_environment (λ v e,
         set_z
           (vertical_advector solvers (time_step s)
              (upward_sea_water_velocity v) (position e))
           e) s) s).

(** Modelled from the spec: [deactivate_elements] is a method of the base
    class and is not in this module.  It takes a boolean mask over the
    ensemble and a reason, sets the status of the matched elements, and is
    idempotent on elements that are already inactive (the first reason
    written stays). *)
Definition deactivate (reason : string) (hit : bool) (e : Element F)
    : Element F :=
  if hit && is_active (status e)
  then set_status (Deactivated reason) e
  else e.

(** Modelled from the spec: [deactivate_elements] applies [deactivate] to
    every row with its entry of the mask. *)
Definition deactivate_elements (indices : list bool) (reason : string)
    : M () :=
  step (DeactivateElements reason) (λ s,
    set_elements
      (imap (λ i e, deactivate reason (default false (indices !! i)) e)
            (elements s)) s).

(** *** The methods of [OceanDrift3D] *)

(** [update_terminal_velocity]: [self.elements.terminal_velocity = 0.] *)
Definition update_terminal_velocity : M () :=
  step UpdateTerminalVelocity (λ s,
    set_elements (set_terminal_velocity (of_Z 0) <$> elements s) s).

(** [self.elements.age_seconds += self.time_step.total_seconds()] *)
Definition age_accrual : M () :=
  step AgeAccrual (λ s,
    set_elements
      ((λ e, set_age_seconds (fadd (age_seconds e) (time_step s)) e)
         <$> elements s) s).

(** [update] *)
Definition update : M () :=
  age_accrual ;;
  advect_ocean_current ;;
  advect_wind ;;
  tm ← gets (λ s, turbulentmixing (processes (config s)));
  (if is_True tm
   then update_terminal_velocity ;; vertical_mixing
   else mret ()) ;;
  va ← gets (λ s, verticaladvection (processes (config s)));
  (if is_True va then vertical_advection else mret ()) ;;
  land ← gets (λ s, (λ v, feqb (land_binary_mask v) (of_Z 1))
                      <$> environment s);
  deactivate_elements land "stranded" ;;
  ma ← gets (λ s, max_age_seconds (drift (config s)));
  match ma with
  | Some m =>
      old ← gets (λ s, (λ e, fgeb (age_seconds e) m) <$> elements s);
      deactivate_elements old "retired"
  | None => mret ()
  end.

(** *** Environment samples *)

(** Modelled from the spec: the sampling layer is not in this module.  The
    environment is a per-step snapshot of the fields at each element's
    position at the time of sampling; [land_at] is the land mask of the
    world as a field over positions. *)
Definition sampled_from (land_at : Position F → F) (s : Sim) : Prop :=
  Forall2 (λ e v, land_binary_mask v = land_at (position e))
          (elements s) (environment s).

(** The state [s] with every environment sample rewritten by [h] and with
    the profiles [ps]. *)
Definition resample (h : nat → Env F → Env F) (ps : list (Profile F))
    (s : Sim) : Sim :=
  mkSim (elements s) (imap h (environment s)) ps (config s) (time_step s)
        (rng s).

(** The state [s] with another diffusivity in every environment sample and
    other diffusivity profiles; everything else is as in [s]. *)
Definition with_diffusivity (k : nat → F) (ps : list (Profile F)) (s : Sim)
    : Sim :=
  resample (λ i, set_diffusivity (k i)) ps s.

(** The state [s] with another wind in every environment sample. *)
Definition with_wind (wx wy : nat → F) (s : Sim) : Sim :=
  resample (λ i, set_wind (wx i) (wy i)) (environment_profiles s) s.

(** The state [s] with another land mask in every environment sample. *)
Definition with_land (l : nat → F) (s : Sim) : Sim :=
  resample (λ i, set_land (l i)) (environment_profiles s) s.


(** The state [s] with another terminal velocity in every element. *)
Definition with_terminal_velocity (t : nat → F) (s : Sim) : Sim :=
  set_elements (imap (λ i e, set_terminal_velocity (t i) e) (elements s)) s.

(** [update] called once per step on the state the call before left, each
    time with the environment sample and the profiles of that step in the
    place of the ones of the step before. *)
Fixpoint calls (samples : list (list (Env F) * list (Profile F))) (s : Sim)
    : Sim :=
  match samples with
  | [] => s
  | (vs, ps) :: rest =>
      calls rest
        (exec update
           (mkSim (elements s) vs ps (config s) (time_step s) (rng s)))
  end.

End Simulation.

(** ** Element variables

    The statement executed when the module is imported:
    [PassiveTracer.variables = PassiveTracer.add_variables([...])]. *)

Section Variables.
Context {F : Type} `{Number F}.

(** The list literal passed to [add_variables]. *)
Definition new_variables : list (string * gmap string (pyval F)) :=
  [ ("wind_drift_factor",
     {[ "dtype" := NpFloat32; "unit" := PyStr "%";
        "default" := PyFloat (of_Z 0) ]});
    ("age_seconds",
     {[ "dtype" := NpFloat32; "units" := PyStr "s";
        "default" := PyInt 0 ]}) ].

(** Modelled from the spec: [add_variables] is a class method of the element
    base class and is not in this module.  It extends the registry of the
    element type with the given attributes (a dictionary update: a name that
    is registered already gets the new description). *)
Definition add_variables (variables : gmap string (gmap string (pyval F)))
    (new : list (string * gmap string (pyval F)))
    : gmap string (gmap string (pyval F)) :=
  foldl (λ m kv, <[kv.1 := kv.2]> m) variables new.

(** [PassiveTracer.variables] after the import, from its value before. *)
Definition PassiveTracer_variables
    (variables : gmap string (gmap string (pyval F)))
    : gmap string (gmap string (pyval F)) :=
  add_variables variables new_variables.

(** A registered default as a number of the attribute's array. *)
Definition as_number (v : pyval F) : option F :=
  match v with
  | PyFloat x => Some x
  | PyInt n => Some (of_Z n)
  | _ => None
  end.

(** Modelled from the spec: the constructor of the element type is not in
    this module.  An attribute is set at particle creation: to the value
    given explicitly, else to the registered default. *)
Definition attribute (variables : gmap string (gmap string (pyval F)))
    (kwargs : gmap string F) (name : string) : option F :=
  match kwargs !! name with
  | Some x => Some x
  | None => variables !! name ≫= λ spec, spec !! "default" ≫= as_number
  end.

(** Modelled from the spec: the constructor of the element type is not in
    this module.  The registry is the fixed schema of the element type: a
    keyword that names no registered variable is an error, and so is a
    registered variable with neither a given value nor a default.
    Otherwise the new element holds, for every registered variable and for
    nothing else, the value [attribute] gives it.  The result is the new
    element as its attributes by name; an attribute that is set later only
    (the terminal velocity, which [update_terminal_velocity] assigns) is not
    among them. *)
Definition new_element (variables : gmap string (gmap string (pyval F)))
    (kwargs : gmap string F) : option (gmap string F) :=
  if bool_decide (dom kwargs ⊆ dom variables)
  then
    if bool_decide
         (map_Forall (λ name _, is_Some (attribute variables kwargs name))
                     variables)
    then Some (map_imap (λ name _, attribute variables kwargs name) variables)
    else None
  else None.

End Variables.

(** ** Class attributes of [OceanDrift3D] *)

(** [required_variables]: the list literal, then
    [required_variables.append('land_binary_mask')]. *)
Definition required_variables : list string :=
  [ "x_sea_water_velocity"; "y_sea_water_velocity"; "x_wind"; "y_wind";
    "upward_sea_water_velocity"; "ocean_vertical_diffusivity";
    "sea_floor_depth_below_sea_level" ] ++ [ "land_binary_mask" ].

(** [required_profiles] *)
Definition required_profiles : list string :=
  [ "ocean_vertical_diffusivity" ].

(** [required_profiles_z_range]: the depth range in metres. *)
Definition required_profiles_z_range : list Z := [ (-120)%Z; 0%Z ].

(** [fallback_values], with the literals as exact decimals. *)
Definition fallback_values : gmap string (pyval QArith_base.Q) :=
  {[ "x_sea_water_velocity" := PyInt 0;
     "y_sea_water_velocity" := PyInt 0;
     "x_wind" := PyInt 0;
     "y_wind" := PyInt 0;
     "upward_sea_water_velocity" := PyInt 0;
     "ocean_vertical_diffusivity" := PyFloat (QArith_base.Qmake 2 100);
     "sea_floor_depth_below_sea_level" := PyInt 10000 ]}.

(** ** A concrete world

    Solvers on a plane with integer coordinates, to run [update] on explicit
    ensembles: displacement is velocity times duration, the wind velocity is
    scaled by the drift factor, and the generator is a counter. *)

Definition plane_solvers : @Solvers Z Z :=
  mkSolvers
    (λ _ dt u v p,
       mkPosition (lon p + u * dt)%Z (lat p + v * dt)%Z (z p))
    (λ dt wx wy f p,
       mkPosition (lon p + f * wx * dt)%Z (lat p + f * wy * dt)%Z (z p))
    (λ g _ dt k _ w p, ((z p + w * dt + k * g)%Z, (g + 1)%Z))
    (λ dt w p, (z p + w * dt)%Z).

(** Land east of the meridian [lon = 10]. *)
Definition east_land (p : Position Z) : Z :=
  if (10 <=? lon p)%Z then 1%Z else 0%Z.

(** An element at longitude [x] with terminal velocity 5. *)
Definition float_at (x age factor : Z) (st : Status) : Element Z :=
  (mkElement (mkPosition x 0 0) age factor 5 st)%Z.

(** An environment sample: eastward current [u], eastward wind [wx], land
    mask [land]; diffusivity 2 over a sea floor at 100. *)
Definition sea (u wx land : Z) : Env Z :=
  (mkEnv u 0 wx 0 0 2 100 land)%Z.

(** A simulation with a step of 10 seconds. *)
Definition run_of (c : Config Z) (es : list (Element Z)) (vs : list (Env Z))
    : @Sim Z Z :=
  mkSim es vs ((λ _, [2; 2]%Z) <$> vs) c 10%Z 0%Z.

Definition retiring_config (m : Z) : Config Z :=
  mkConfig (mkDriftConfig "euler" (Some m))
           (mkProcessesConfig (PyBool false) (PyBool true))
           (mkMixingConfig 1%Z 1%Z "environment").

Definition mixing_config : Config Z :=
  mkConfig (mkDriftConfig "euler" None)
           (mkProcessesConfig (PyBool true) (PyBool true))
           (mkMixingConfig 1%Z 1%Z "environment").

(** An element at sea that the current carries east by 10. *)
Definition drifting_run : @Sim Z Z :=
  run_of default_config [float_at 0 0 0 Active] [sea 1 0 0].

(** An element sampled on land. *)
Definition landfall_run : @Sim Z Z :=
  run_of default_config [float_at 0 0 0 Active] [sea 1 0 1].

(** An element sampled on land that is also older than the maximum age. *)
Definition old_landfall_run : @Sim Z Z :=
  run_of (retiring_config 5) [float_at 0 0 0 Active] [sea 1 0 1].

(** An element of age 5 that is inactive already. *)
Definition stranded_run : @Sim Z Z :=
  run_of (retiring_config 5) [float_at 0 5 0 (Deactivated "stranded")]
         [sea 0 0 1].

(** An element with drift factor 1 under wind, without mixing. *)
Definition windy_run : @Sim Z Z :=
  run_of default_config [float_at 0 0 1 Active] [sea 1 2 0].

(** An element at sea that reaches the maximum age in this step. *)
Definition aging_run : @Sim Z Z :=
  run_of (retiring_config 5) [float_at 0 0 0 Active] [sea 1 0 0].




(** A registry as an element base class provides it before the import:
    longitude and latitude without a default, depth and status with one. *)
Definition position_variables : gmap string (gmap string (pyval Z)) :=
  {[ "status" := {[ "dtype" := NpFloat32; "default" := PyInt 0 ]};
     "lon" := {[ "dtype" := NpFloat32 ]};
     "lat" := {[ "dtype" := NpFloat32 ]};
     "z" := {[ "dtype" := NpFloat32; "default" := PyFloat 0%Z ]} ]}.

(** The keyword arguments of a seeding that gives the horizontal position
    only. *)
Definition seed_kwargs : gmap string Z := {[ "lon" := 3%Z; "lat" := 4%Z ]}.

(** The attributes of the element that seeding makes of them. *)
Definition seeded_attributes : gmap string Z :=
  {[ "status" := 0%Z; "lon" := 3%Z; "lat" := 4%Z; "z" := 0%Z;
     "wind_drift_factor" := 0%Z; "age_seconds" := 0%Z ]}.

(** That element, before its terminal velocity was ever assigned, beside an
    element with drift factor 1; under wind and with mixing. *)
Definition seeded_run : @Sim Z Z :=
  run_of mixing_config
         [(mkElement (mkPosition 3 4 0) 0 0 5 Active)%Z; float_at 0 0 1 Active]
         [sea 1 3 0; sea 1 3 0].

(** A sample with a vertical velocity of 3. *)
Definition rising_run : @Sim Z Z :=
  run_of default_config [float_at 0 0 0 Active]
         [(mkEnv 0 0 0 0 3 2 100 0)%Z].

(** ** Properties *)

Section Properties.
Context {F : Type} `{Number F} {Rng : Type}.
Variable solvers : @Solvers F Rng.

Abbreviation Sim := (@Sim F Rng).
Abbreviation M := (@M F Rng).

(** *** Definitions used by the statements *)

(** The sequence of sub-steps of one step, as the specification lists it. *)
Definition substeps_in_order (c : Config F) : list Substep :=
  ([AgeAccrual; AdvectOceanCurrent; AdvectWind]
   ++ (if is_True (turbulentmixing (processes c))
       then [UpdateTerminalVelocity; VerticalMixing] else [])
   ++ (if is_True (verticaladvection (processes c))
       then [VerticalAdvection] else [])
   ++ [DeactivateElements "stranded"]
   ++ (match max_age_seconds (drift c) with
       | Some _ => [DeactivateElements "retired"]
       | None => []
       end))%list.

(** The masks of the two deactivation checks. *)
Definition land_mask (s : Sim) : list bool :=
  (λ v, feqb (land_binary_mask v) (of_Z 1)) <$> environment s.

Definition age_mask (m : F) (s : Sim) : list bool :=
  (λ e, fgeb (age_seconds e) m) <$> elements s.

(** The stages of [update] as state transformers. *)
Definition mixing_stage (s : Sim) : Sim :=
  if is_True (turbulentmixing (processes (config s)))
  then exec (vertical_mixing solvers) (exec update_terminal_velocity s)
  else s.

Definition vertical_stage (s : Sim) : Sim :=
  if is_True (verticaladvection (processes (config s)))
  then exec (vertical_advection solvers) s
  else s.

Definition stranding_stage (s : Sim) : Sim :=
  exec (deactivate_elements (land_mask s) "stranded") s.

Definition retirement_stage (s : Sim) : Sim :=
  match max_age_seconds (drift (config s)) with
  | Some m => exec (deactivate_elements (age_mask m s) "retired") s
  | None => s
  end.

Definition advection_stage (s : Sim) : Sim :=
  exec (advect_wind solvers)
    (exec (advect_ocean_current solvers) (exec age_accrual s)).

(** [rowwise g s s']: row [i] of the ensemble of [s'] is [g i] of row [i] of
    the ensemble of [s]; in particular both ensembles have one length. *)
Definition rowwise (g : nat → Element F → Element F) (s s' : Sim) : Prop :=
  ∀ i, elements s' !! i = g i <$> elements s !! i.

(** What the environment and the configuration are after a stage. *)
Definition same_setting (s s' : Sim) : Prop :=
  environment s' = environment s ∧
  environment_profiles s' = environment_profiles s ∧
  config s' = config s ∧
  time_step s' = time_step s.

(** An element that was only displaced. *)
Definition displaced (e e' : Element F) : Prop :=
  age_seconds e' = age_seconds e ∧
  wind_drift_factor e' = wind_drift_factor e ∧
  terminal_velocity e' = terminal_velocity e ∧
  status e' = status e.

(** [stage R s s']: [s'] has the setting of [s] and an ensemble of the same
    length, and every row [i] of [s] is related by [R i] to row [i] of
    [s']. *)
Definition stage (R : nat → Element F → Element F → Prop) (s s' : Sim)
    : Prop :=
  same_setting s s' ∧
  length (elements s') = length (elements s) ∧
  ∀ i e, elements s !! i = Some e →
         ∃ e', elements s' !! i = Some e' ∧ R i e e'.

(** The element after the three unconditional sub-steps. *)
Definition aged (dt : F) (e e' : Element F) : Prop :=
  age_seconds e' = fadd (age_seconds e) dt ∧
  wind_drift_factor e' = wind_drift_factor e ∧
  terminal_velocity e' = terminal_velocity e ∧
  status e' = status e.

(** The element after the gated mixing block. *)
Definition mixed (on : bool) (e e' : Element F) : Prop :=
  age_seconds e' = age_seconds e ∧
  wind_drift_factor e' = wind_drift_factor e ∧
  terminal_velocity e' = (if on then of_Z 0 else terminal_velocity e) ∧
  status e' = status e.

(** The status of an element after the two deactivation checks. *)
Definition final_status (c : Config F) (land : bool) (age : F) (st : Status)
    : Status :=
  let st1 := if land && is_active st then Deactivated "stranded" else st in
  match max_age_seconds (drift c) with
  | Some m => if fgeb age m && is_active st1 then Deactivated "retired" else st1
  | None => st1
  end.

(** Row [i] before and after one call of [update]. *)
Definition updated (s : Sim) (i : nat) (e e' : Element F) : Prop :=
  age_seconds e' = fadd (age_seconds e) (time_step s) ∧
  wind_drift_factor e' = wind_drift_factor e ∧
  terminal_velocity e' =
    (if is_True (turbulentmixing (processes (config s)))
     then of_Z 0 else terminal_velocity e) ∧
  status e' =
    final_status (config s) (default false (land_mask s !! i))
      (fadd (age_seconds e) (time_step s)) (status e).

(** [h] leaves the field [proj] of every environment sample as it is. *)
Definition keeps (h : nat → Env F → Env F) (proj : Env F → F) : Prop :=
  ∀ i v, proj (h i v) = proj v.

(** The stages of [update] that move elements, before the two checks. *)
Definition movement_stage (s : Sim) : Sim :=
  vertical_stage (mixing_stage (advection_stage s)).

(** The number of active elements of the ensemble. *)
Definition active_count (s : Sim) : nat :=
  length (filter (λ e, is_active (status e) = true) (elements s)).

(** The horizontal coordinates of an element. *)
Definition horizontal (e : Element F) : F * F :=
  (lon (position e), lat (position e)).

(** Three readings that the statements below are compared with. *)

(** The land check read against the positions after the step: an active
    element is stranded exactly when the land mask of the world at the
    position [update] moved it to is 1. *)
Definition stranded_at_new_position (land_at : Position F → F) (s : Sim)
    : Prop :=
  ∀ i e e',
    elements s !! i = Some e → status e = Active →
    elements (exec (update solvers) s) !! i = Some e' →
    (status e' = Deactivated "stranded" ↔
     feqb (land_at (position e')) (of_Z 1) = true).

(** An inactive element is excluded from every sub-step: [update] leaves
    its status and its age as they are. *)
Definition inactive_untouched (s : Sim) : Prop :=
  ∀ i e e',
    elements s !! i = Some e → is_active (status e) = false →
    elements (exec (update solvers) s) !! i = Some e' →
    status e' = status e ∧ age_seconds e' = age_seconds e.

(** The terminal velocity is recomputed in this call of [update]. *)
Definition terminal_velocity_recomputed (s : Sim) : Prop :=
  UpdateTerminalVelocity ∈ trace (update solvers) s.

(** *** Sequencing of statements *)

Lemma exec_bind {A B} (m : M A) (k : A → M B) (s : Sim) :
  exec (m ≫= k) s = exec (k (m s).1.1) (exec m s).
Proof.
  unfold exec, mbind, M_bind.
  destruct (m s) as [[a s1] t1]; simpl.
  destruct (k a s1) as [[b s2] t2]; reflexivity.
Qed.

Lemma trace_bind {A B} (m : M A) (k : A → M B) (s : Sim) :
  trace (m ≫= k) s = (trace m s ++ trace (k (m s).1.1) (exec m s))%list.
Proof.
  unfold trace, exec, mbind, M_bind.
  destruct (m s) as [[a s1] t1]; simpl.
  destruct (k a s1) as [[b s2] t2]; reflexivity.
Qed.

(** *** The stages of [update] as state transformers *)

Lemma update_exec (s : Sim) :
  exec (update solvers) s =
  retirement_stage
    (stranding_stage (vertical_stage (mixing_stage (advection_stage s)))).
Proof.
  unfold retirement_stage, stranding_stage, vertical_stage, mixing_stage,
    advection_stage, update, exec, mbind, M_bind, mret, M_ret, gets.
  cbn.
  destruct (is_True (turbulentmixing (processes (config s)))); cbn;
    destruct (is_True (verticaladvection (processes (config s)))); cbn;
    destruct (max_age_seconds (drift (config s))); reflexivity.
Qed.

Lemma update_trace (s : Sim) :
  trace (update solvers) s = substeps_in_order (config s).
Proof.
  unfold trace, update, substeps_in_order, mbind, M_bind, mret, M_ret, gets.
  cbn.
  destruct (is_True (turbulentmixing (processes (config s)))); cbn;
    destruct (is_True (verticaladvection (processes (config s)))); cbn;
    destruct (max_age_seconds (drift (config s))); reflexivity.
Qed.

(** *** Rows of the ensemble across a stage *)

Lemma rowwise_length g s s' :
  rowwise g s s' → length (elements s') = length (elements s).
Proof.
  intros Hg.
  destruct (Nat.lt_trichotomy (length (elements s')) (length (elements s)))
    as [Hlt | [Heq | Hlt]]; [exfalso | exact Heq | exfalso].
  - destruct (lookup_lt_is_Some_2 _ _ Hlt) as [e He].
    specialize (Hg (length (elements s'))).
    rewrite He, (lookup_ge_None_2 (elements s')) in Hg by lia.
    discriminate.
  - destruct (lookup_lt_is_Some_2 _ _ Hlt) as [e He].
    specialize (Hg (length (elements s))).
    rewrite He, (lookup_ge_None_2 (elements s)) in Hg by lia.
    discriminate.
Qed.

Lemma same_setting_refl s : same_setting s s.
Proof. repeat split. Qed.

Lemma same_setting_trans s s' s'' :
  same_setting s s' → same_setting s' s'' → same_setting s s''.
Proof.
  intros (? & ? & ? & ?) (? & ? & ? & ?).
  repeat split; congruence.
Qed.

Lemma displaced_refl e : displaced e e.
Proof. repeat split. Qed.

Lemma set_z_same (e : Element F) : set_z (z (position e)) e = e.
Proof. destruct e as [[] ? ? ? ?]; reflexivity. Qed.

Lemma with_environment_lookup f (s : Sim) i :
  with_environment f s !! i =
  (λ e, match environment s !! i with Some v => f v e | None => e end)
    <$> elements s !! i.
Proof. unfold with_environment. apply list_lookup_imap. Qed.

(** *** The stages one by one *)

Lemma age_accrual_rowwise (s : Sim) :
  rowwise (λ _ e, set_age_seconds (fadd (age_seconds e) (time_step s)) e)
          s (exec age_accrual s).
Proof. intros i. cbn. apply list_lookup_fmap. Qed.

Lemma advect_ocean_current_rowwise (s : Sim) :
  ∃ g, rowwise g s (exec (advect_ocean_current solvers) s) ∧
       ∀ i e, displaced e (g i e).
Proof.
  eexists. split.
  - intros i. cbn. apply with_environment_lookup.
  - intros i e. cbn. destruct (environment s !! i); repeat split.
Qed.

Lemma advect_wind_rowwise (s : Sim) :
  ∃ g, rowwise g s (exec (advect_wind solvers) s) ∧
       ∀ i e, displaced e (g i e).
Proof.
  eexists. split.
  - intros i. cbn. apply with_environment_lookup.
  - intros i e. cbn. destruct (environment s !! i); repeat split.
Qed.

Lemma vertical_advection_rowwise (s : Sim) :
  ∃ g, rowwise g s (exec (vertical_advection solvers) s) ∧
       ∀ i e, displaced e (g i e).
Proof.
  eexists. split.
  - intros i. cbn. apply with_environment_lookup.
  - intros i e. cbn. destruct (environment s !! i); repeat split.
Qed.

Lemma mix_from_lookup (s : Sim) (es : list (Element F)) :
  ∀ i0 g, ∃ zs : nat → F,
    ∀ j, (mix_from solvers s i0 g es).1 !! j = (λ e, set_z (zs j) e) <$> es !! j.
Proof.
  induction es as [| e es IH]; intros i0 g.
  - exists (λ _, of_Z 0). intros j. reflexivity.
  - cbn [mix_from]. destruct (environment s !! i0) as [v |].
    + destruct (turbulent_mixer solvers g (mixing (config s)) (time_step s)
                  (ocean_vertical_diffusivity v)
                  (default [] (environment_profiles s !! i0))
                  (terminal_velocity e) (position e)) as [z' g'].
      destruct (IH (S i0) g') as [zs Hzs].
      destruct (mix_from solvers s (S i0) g' es) as [r g''] eqn:Hr.
      exists (λ j, match j with 0 => z' | S j' => zs j' end).
      intros [| j]; [reflexivity | apply Hzs].
    + destruct (IH (S i0) g) as [zs Hzs].
      destruct (mix_from solvers s (S i0) g es) as [r g'] eqn:Hr.
      exists (λ j, match j with 0 => z (position e) | S j' => zs j' end).
      intros [| j]; [cbn; by rewrite set_z_same | apply Hzs].
Qed.

Lemma vertical_mixing_rowwise (s : Sim) :
  ∃ g, rowwise g s (exec (vertical_mixing solvers) s) ∧
       ∀ i e, displaced e (g i e).
Proof.
  destruct (mix_from_lookup s (elements s) 0 (rng s)) as [zs Hzs].
  exists (λ i e, set_z (zs i) e). split.
  - intros i. cbn. apply Hzs.
  - intros i e. repeat split.
Qed.

Lemma update_terminal_velocity_rowwise (s : Sim) :
  rowwise (λ _ e, set_terminal_velocity (of_Z 0) e)
          s (exec update_terminal_velocity s).
Proof. intros i. cbn. apply list_lookup_fmap. Qed.

Lemma deactivate_elements_rowwise (mask : list bool) (reason : string)
    (s : Sim) :
  rowwise (λ i e, deactivate reason (default false (mask !! i)) e)
          s (exec (deactivate_elements mask reason) s).
Proof.
  intros i. cbn.
  apply (list_lookup_imap
           (λ i e, deactivate reason (default false (mask !! i)) e)).
Qed.

(** *** Stages and their composition *)

Lemma stage_of_rowwise g s s' :
  same_setting s s' → rowwise g s s' → stage (λ i e e', e' = g i e) s s'.
Proof.
  intros Hs Hg. split; [exact Hs |]. split.
  - by apply rowwise_length with g.
  - intros i e He. exists (g i e). by rewrite Hg, He.
Qed.

Lemma stage_refl s : stage (λ _ e e', e' = e) s s.
Proof.
  split; [apply same_setting_refl |]. split; [reflexivity |]. eauto.
Qed.

Lemma stage_weaken (R R' : nat → Element F → Element F → Prop) s s' :
  (∀ i e e', R i e e' → R' i e e') → stage R s s' → stage R' s s'.
Proof.
  intros HR (Hs & Hl & Hrow). split; [exact Hs |]. split; [exact Hl |].
  intros i e He. destruct (Hrow i e He) as (e' & He' & HRe). eauto.
Qed.

Lemma stage_compose (R R' : nat → Element F → Element F → Prop) s s' s'' :
  stage R s s' → stage R' s' s'' →
  stage (λ i e e'', ∃ e', R i e e' ∧ R' i e' e'') s s''.
Proof.
  intros (Hs & Hl & Hrow) (Hs' & Hl' & Hrow').
  split; [by apply same_setting_trans with s' |].
  split; [congruence |].
  intros i e He.
  destruct (Hrow i e He) as (e' & He' & HRe).
  destruct (Hrow' i e' He') as (e'' & He'' & HRe').
  eauto.
Qed.

Lemma age_accrual_stage (s : Sim) :
  stage (λ _ e e', e' = set_age_seconds (fadd (age_seconds e) (time_step s)) e)
        s (exec age_accrual s).
Proof.
  apply stage_of_rowwise; [by repeat split | apply age_accrual_rowwise].
Qed.

Lemma advect_ocean_current_stage (s : Sim) :
  stage (λ _, displaced) s (exec (advect_ocean_current solvers) s).
Proof.
  destruct (advect_ocean_current_rowwise s) as (g & Hg & Hd).
  eapply stage_weaken;
    [| apply (stage_of_rowwise g); [by repeat split | exact Hg]].
  intros i e e' ->. apply Hd.
Qed.

Lemma advect_wind_stage (s : Sim) :
  stage (λ _, displaced) s (exec (advect_wind solvers) s).
Proof.
  destruct (advect_wind_rowwise s) as (g & Hg & Hd).
  eapply stage_weaken;
    [| apply (stage_of_rowwise g); [by repeat split | exact Hg]].
  intros i e e' ->. apply Hd.
Qed.

Lemma vertical_advection_stage (s : Sim) :
  stage (λ _, displaced) s (exec (vertical_advection solvers) s).
Proof.
  destruct (vertical_advection_rowwise s) as (g & Hg & Hd).
  eapply stage_weaken;
    [| apply (stage_of_rowwise g); [by repeat split | exact Hg]].
  intros i e e' ->. apply Hd.
Qed.

Lemma vertical_mixing_stage (s : Sim) :
  stage (λ _, displaced) s (exec (vertical_mixing solvers) s).
Proof.
  destruct (vertical_mixing_rowwise s) as (g & Hg & Hd).
  eapply stage_weaken;
    [| apply (stage_of_rowwise g); [by repeat split | exact Hg]].
  intros i e e' ->. apply Hd.
Qed.

Lemma update_terminal_velocity_stage (s : Sim) :
  stage (λ _ e e', e' = set_terminal_velocity (of_Z 0) e)
        s (exec update_terminal_velocity s).
Proof.
  apply stage_of_rowwise;
    [by repeat split | apply update_terminal_velocity_rowwise].
Qed.

Lemma deactivate_elements_stage mask reason (s : Sim) :
  stage (λ i e e', e' = deactivate reason (default false (mask !! i)) e)
        s (exec (deactivate_elements mask reason) s).
Proof.
  apply (stage_of_rowwise
           (λ i e, deactivate reason (default false (mask !! i)) e));
    [by repeat split | apply deactivate_elements_rowwise].
Qed.

Lemma advection_stage_stage (s : Sim) :
  stage (λ _, aged (time_step s)) s (advection_stage s).
Proof.
  unfold advection_stage.
  eapply stage_weaken;
    [| eapply stage_compose;
       [eapply stage_compose;
        [apply age_accrual_stage | apply advect_ocean_current_stage]
       | apply advect_wind_stage]].
  cbn. intros i e e3 (e2 & (e1 & -> & (? & ? & ? & ?)) & (? & ? & ? & ?)).
  repeat split; cbn in *; congruence.
Qed.

Lemma mixing_stage_stage (s : Sim) :
  stage (λ _, mixed (is_True (turbulentmixing (processes (config s)))))
        s (mixing_stage s).
Proof.
  unfold mixing_stage.
  destruct (is_True (turbulentmixing (processes (config s)))).
  - eapply stage_weaken;
      [| eapply stage_compose;
         [apply update_terminal_velocity_stage | apply vertical_mixing_stage]].
    cbn. intros i e e2 (e1 & -> & (? & ? & ? & ?)).
    repeat split; cbn in *; congruence.
  - eapply stage_weaken; [| apply stage_refl].
    cbn. intros i e e' ->. repeat split.
Qed.

Lemma vertical_stage_stage (s : Sim) :
  stage (λ _, displaced) s (vertical_stage s).
Proof.
  unfold vertical_stage.
  destruct (is_True (verticaladvection (processes (config s)))).
  - apply vertical_advection_stage.
  - eapply stage_weaken; [| apply stage_refl].
    cbn. intros i e e' ->. apply displaced_refl.
Qed.

Lemma stranding_stage_stage (s : Sim) :
  stage (λ i e e',
           e' = deactivate "stranded" (default false (land_mask s !! i)) e)
        s (stranding_stage s).
Proof. apply deactivate_elements_stage. Qed.

Lemma age_mask_lookup m (s : Sim) i e :
  elements s !! i = Some e →
  default false (age_mask m s !! i) = fgeb (age_seconds e) m.
Proof.
  intros He. unfold age_mask. by rewrite list_lookup_fmap, He.
Qed.

Lemma retirement_stage_stage (s : Sim) :
  stage (λ _ e e',
           e' = match max_age_seconds (drift (config s)) with
                | Some m => deactivate "retired" (fgeb (age_seconds e) m) e
                | None => e
                end)
        s (retirement_stage s).
Proof.
  unfold retirement_stage.
  destruct (max_age_seconds (drift (config s))) as [m |].
  - destruct (deactivate_elements_stage (age_mask m s) "retired" s)
      as (Hs & Hl & Hrow).
    split; [exact Hs |]. split; [exact Hl |].
    intros i e He. destruct (Hrow i e He) as (e' & He' & ->).
    exists (deactivate "retired" (fgeb (age_seconds e) m) e).
    by rewrite (age_mask_lookup m s i e He) in He'.
  - apply stage_refl.
Qed.

(** *** One row across [update] *)

Lemma deactivate_fields reason hit (e : Element F) :
  age_seconds (deactivate reason hit e) = age_seconds e ∧
  wind_drift_factor (deactivate reason hit e) = wind_drift_factor e ∧
  terminal_velocity (deactivate reason hit e) = terminal_velocity e ∧
  position (deactivate reason hit e) = position e ∧
  status (deactivate reason hit e) =
    (if hit && is_active (status e) then Deactivated reason else status e).
Proof.
  unfold deactivate. destruct (hit && is_active (status e)); repeat split.
Qed.

Lemma update_stage (s : Sim) : stage (updated s) s (exec (update solvers) s).
Proof.
  rewrite update_exec.
  pose proof (advection_stage_stage s) as H3.
  set (s3 := advection_stage s) in *.
  pose proof (mixing_stage_stage s3) as H4.
  set (s4 := mixing_stage s3) in *.
  pose proof (vertical_stage_stage s4) as H5.
  set (s5 := vertical_stage s4) in *.
  pose proof (stranding_stage_stage s5) as H6.
  set (s6 := stranding_stage s5) in *.
  pose proof (retirement_stage_stage s6) as H7.
  set (s7 := retirement_stage s6) in *.
  pose proof (stage_compose _ _ _ _ _ H3 H4) as H34.
  pose proof (stage_compose _ _ _ _ _ H34 H5) as H35.
  pose proof (stage_compose _ _ _ _ _ H35 H6) as H36.
  pose proof (stage_compose _ _ _ _ _ H36 H7) as H37.
  destruct H3 as ((_ & _ & Hc3 & _) & _).
  destruct H36 as ((Hv6 & _ & Hc6 & _) & _).
  destruct H35 as ((Hv5 & _ & _ & _) & _).
  clear H4 H5 H6 H7 H34.
  clearbody s3 s4 s5 s6 s7.
  eapply stage_weaken; [| exact H37].
  cbn. intros i e e7 (e6 & (e5 & (e4 & (e3 & Ha & Hm) & Hd) & ->) & ->).
  rewrite Hc3 in Hm. rewrite Hc6.
  unfold land_mask. rewrite Hv5. fold (land_mask s).
  destruct Ha as (Ea & Ew & Et & Es), Hm as (Ea' & Ew' & Et' & Es'),
    Hd as (Ea'' & Ew'' & Et'' & Es'').
  rewrite Et in Et'.
  assert (age_seconds e5 = fadd (age_seconds e) (time_step s)) as E1
    by congruence.
  assert (wind_drift_factor e5 = wind_drift_factor e) as E2 by congruence.
  assert (terminal_velocity e5 =
          if is_True (turbulentmixing (processes (config s)))
          then of_Z 0 else terminal_velocity e) as E3 by congruence.
  assert (status e5 = status e) as E4 by congruence.
  set (hit := default false (land_mask s !! i)).
  destruct (deactivate_fields "stranded" hit e5) as (A1 & A2 & A3 & _ & A4).
  unfold updated, final_status.
  destruct (max_age_seconds (drift (config s))) as [m |].
  - destruct (deactivate_fields "retired"
                (fgeb (age_seconds (deactivate "stranded" hit e5)) m)
                (deactivate "stranded" hit e5)) as (B1 & B2 & B3 & _ & B4).
    rewrite B1, B2, B3, B4, A1, A2, A3, A4, E1, E2, E3, E4.
    repeat split.
  - rewrite A1, A2, A3, A4, E1, E2, E3, E4.
    repeat split.
Qed.

(** *** Stages under another environment sample *)

Lemma with_environment_resample f h ps (s : Sim) :
  (∀ i v e, f (h i v) e = f v e) →
  with_environment f (resample h ps s) = with_environment f s.
Proof.
  intros Hf. unfold with_environment. cbn.
  apply imap_ext. intros i e _.
  rewrite list_lookup_imap.
  destruct (environment s !! i); cbn; [apply Hf | reflexivity].
Qed.

Lemma age_accrual_resample h ps (s : Sim) :
  exec age_accrual (resample h ps s) = resample h ps (exec age_accrual s).
Proof. reflexivity. Qed.

Lemma advect_ocean_current_resample h ps (s : Sim) :
  keeps h x_sea_water_velocity → keeps h y_sea_water_velocity →
  exec (advect_ocean_current solvers) (resample h ps s) =
  resample h ps (exec (advect_ocean_current solvers) s).
Proof.
  intros Hx Hy. cbn. unfold set_elements, resample. cbn. f_equal.
  apply (with_environment_resample _ h ps s).
  intros i v e. by rewrite Hx, Hy.
Qed.

Lemma advect_wind_resample h ps (s : Sim) :
  keeps h x_wind → keeps h y_wind →
  exec (advect_wind solvers) (resample h ps s) =
  resample h ps (exec (advect_wind solvers) s).
Proof.
  intros Hx Hy. cbn. unfold set_elements, resample. cbn. f_equal.
  apply (with_environment_resample _ h ps s).
  intros i v e. by rewrite Hx, Hy.
Qed.

Lemma vertical_advection_resample h ps (s : Sim) :
  keeps h upward_sea_water_velocity →
  exec (vertical_advection solvers) (resample h ps s) =
  resample h ps (exec (vertical_advection solvers) s).
Proof.
  intros Hw. cbn. unfold set_elements, resample. cbn. f_equal.
  apply (with_environment_resample _ h ps s).
  intros i v e. by rewrite Hw.
Qed.

Lemma update_terminal_velocity_resample h ps (s : Sim) :
  exec update_terminal_velocity (resample h ps s) =
  resample h ps (exec update_terminal_velocity s).
Proof. reflexivity. Qed.

Lemma mix_from_resample h (s : Sim) (es : list (Element F)) :
  keeps h ocean_vertical_diffusivity →
  ∀ i g, mix_from solvers (resample h (environment_profiles s) s) i g es =
         mix_from solvers s i g es.
Proof.
  intros Hk. induction es as [| e es IH]; intros i g; [reflexivity |].
  cbn [mix_from]. cbn [environment resample config time_step
                       environment_profiles].
  rewrite list_lookup_imap.
  destruct (environment s !! i) as [v |]; cbn [fmap option_fmap option_map].
  - rewrite Hk.
    destruct (turbulent_mixer solvers g (mixing (config s)) (time_step s)
                (ocean_vertical_diffusivity v)
                (default [] (environment_profiles s !! i))
                (terminal_velocity e) (position e)) as [z' g'].
    by rewrite IH.
  - by rewrite IH.
Qed.

Lemma vertical_mixing_resample h (s : Sim) :
  keeps h ocean_vertical_diffusivity →
  exec (vertical_mixing solvers) (resample h (environment_profiles s) s) =
  resample h (environment_profiles s) (exec (vertical_mixing solvers) s).
Proof.
  intros Hk. cbn. unfold resample. cbn.
  by rewrite (mix_from_resample h s (elements s) Hk).
Qed.

Lemma land_mask_resample h ps (s : Sim) :
  keeps h land_binary_mask → land_mask (resample h ps s) = land_mask s.
Proof.
  intros Hl. unfold land_mask. cbn.
  apply list_eq. intros i.
  rewrite !list_lookup_fmap, list_lookup_imap.
  destruct (environment s !! i); cbn; [by rewrite Hl | reflexivity].
Qed.

Lemma stranding_stage_resample h ps (s : Sim) :
  keeps h land_binary_mask →
  stranding_stage (resample h ps s) = resample h ps (stranding_stage s).
Proof.
  intros Hl. unfold stranding_stage. by rewrite land_mask_resample.
Qed.

Lemma retirement_stage_resample h ps (s : Sim) :
  retirement_stage (resample h ps s) = resample h ps (retirement_stage s).
Proof.
  unfold retirement_stage. cbn.
  destruct (max_age_seconds (drift (config s))); reflexivity.
Qed.

Lemma vertical_stage_resample h ps (s : Sim) :
  keeps h upward_sea_water_velocity →
  vertical_stage (resample h ps s) = resample h ps (vertical_stage s).
Proof.
  intros Hw. unfold vertical_stage. cbn.
  destruct (is_True (verticaladvection (processes (config s))));
    [by apply vertical_advection_resample | reflexivity].
Qed.

(** *** Shared facts about one call of [update] *)

Lemma update_length (s : Sim) :
  length (elements (exec (update solvers) s)) = length (elements s).
Proof. apply (update_stage s). Qed.

Lemma update_row (s : Sim) i e :
  elements s !! i = Some e →
  ∃ e', elements (exec (update solvers) s) !! i = Some e' ∧ updated s i e e'.
Proof. apply (update_stage s). Qed.

Lemma update_row_None (s : Sim) i :
  elements s !! i = None → elements (exec (update solvers) s) !! i = None.
Proof.
  rewrite !lookup_ge_None, update_length. auto.
Qed.

Lemma update_setting (s : Sim) : same_setting s (exec (update solvers) s).
Proof. apply (update_stage s). Qed.

Lemma is_True_spec (v : pyval F) : is_True v = true ↔ v = PyBool true.
Proof.
  split; [| by intros ->].
  destruct v as [| [] | | | |]; cbn; congruence.
Qed.

Ltac substep_not_in :=
  let Hin := fresh "Hin" in
  intros Hin;
  repeat (apply elem_of_cons in Hin as [Hin | Hin]; [discriminate |]);
  by apply elem_of_nil in Hin.

Ltac substep_in :=
  repeat (first [by apply list_elem_of_here | apply list_elem_of_further]).

Lemma stage_Forall (P Q : Element F → Prop) R (s s' : Sim) :
  stage R s s' → (∀ i e e', R i e e' → P e → Q e') →
  Forall P (elements s) → Forall Q (elements s').
Proof.
  intros (_ & Hl & Hrow) HR HP.
  apply Forall_lookup. intros i e' He'.
  destruct (lookup_lt_is_Some_2 (elements s) i) as [e He].
  { rewrite <- Hl. by apply lookup_lt_Some with e'. }
  destruct (Hrow i e He) as (e'' & He'' & HRe).
  assert (e'' = e') as -> by congruence.
  apply (HR i e e' HRe). by apply (Forall_lookup_1 _ _ i e HP).
Qed.

Lemma advection_stage_resample h ps (s : Sim) :
  keeps h x_sea_water_velocity → keeps h y_sea_water_velocity →
  keeps h x_wind → keeps h y_wind →
  advection_stage (resample h ps s) = resample h ps (advection_stage s).
Proof.
  intros Hu Hv Hx Hy. unfold advection_stage.
  rewrite age_accrual_resample, advect_ocean_current_resample by done.
  by apply advect_wind_resample.
Qed.

(** With the mixing block off, [update] commutes with every change of the
    environment sample that keeps the fields the other stages read. *)
Lemma update_resample_unmixed h ps (s : Sim) :
  is_True (turbulentmixing (processes (config s))) = false →
  keeps h x_sea_water_velocity → keeps h y_sea_water_velocity →
  keeps h x_wind → keeps h y_wind →
  keeps h upward_sea_water_velocity → keeps h land_binary_mask →
  exec (update solvers) (resample h ps s) =
  resample h ps (exec (update solvers) s).
Proof.
  intros Htm Hu Hv Hx Hy Hw Hl.
  rewrite !update_exec, advection_stage_resample by done.
  destruct (advection_stage_stage s) as ((_ & _ & Hc & _) & _).
  assert (∀ s', config s' = config s →
                mixing_stage (resample h ps s') = resample h ps (mixing_stage s'))
    as Hmix.
  { intros s' Hc'. unfold mixing_stage. cbn. by rewrite Hc', Htm. }
  rewrite Hmix by done.
  rewrite vertical_stage_resample, stranding_stage_resample by done.
  apply retirement_stage_resample.
Qed.

(** An element with drift factor 0 is not displaced by the wind. *)
Lemma advect_wind_zero_factor (s : Sim) :
  (∀ dt wx wy p, wind_advector solvers dt wx wy (of_Z 0) p = p) →
  Forall (λ e, wind_drift_factor e = of_Z 0) (elements s) →
  exec (advect_wind solvers) s = s.
Proof.
  intros Hzero Hall.
  assert (with_environment (λ v e,
            set_position
              (wind_advector solvers (time_step s) (x_wind v) (y_wind v)
                 (wind_drift_factor e) (position e)) e) s = elements s) as E.
  { apply list_eq. intros i. rewrite with_environment_lookup.
    destruct (elements s !! i) as [e |] eqn:He; [| reflexivity].
    cbn. f_equal. destruct (environment s !! i); [| reflexivity].
    rewrite (Forall_lookup_1 _ _ i e Hall He), Hzero.
    by destruct e. }
  cbn. rewrite E. by destruct s.
Qed.

Lemma zero_factor_before_wind (s : Sim) :
  Forall (λ e, wind_drift_factor e = of_Z 0) (elements s) →
  Forall (λ e, wind_drift_factor e = of_Z 0)
         (elements (exec (advect_ocean_current solvers) (exec age_accrual s))).
Proof.
  intros Hall.
  eapply stage_Forall;
    [eapply stage_compose;
     [apply age_accrual_stage | apply advect_ocean_current_stage]
    | | exact Hall].
  cbn. intros i e e2 (e1 & -> & (_ & Hw & _)) He. by rewrite Hw.
Qed.

Lemma mixing_stage_resample h (s : Sim) :
  keeps h ocean_vertical_diffusivity →
  mixing_stage (resample h (environment_profiles s) s) =
  resample h (environment_profiles s) (mixing_stage s).
Proof.
  intros Hk. unfold mixing_stage.
  change (config (resample h (environment_profiles s) s)) with (config s).
  destruct (is_True (turbulentmixing (processes (config s))));
    [| reflexivity].
  rewrite update_terminal_velocity_resample.
  by apply (vertical_mixing_resample h (exec update_terminal_velocity s)).
Qed.

(** With drift factor 0 everywhere, [update] commutes with every change of
    the environment sample that keeps all fields but the wind. *)
Lemma update_resample_zero_factor h (s : Sim) :
  (∀ dt wx wy p, wind_advector solvers dt wx wy (of_Z 0) p = p) →
  Forall (λ e, wind_drift_factor e = of_Z 0) (elements s) →
  keeps h x_sea_water_velocity → keeps h y_sea_water_velocity →
  keeps h upward_sea_water_velocity → keeps h ocean_vertical_diffusivity →
  keeps h land_binary_mask →
  exec (update solvers) (resample h (environment_profiles s) s) =
  resample h (environment_profiles s) (exec (update solvers) s).
Proof.
  intros Hzero Hall Hu Hv Hw Hk Hl.
  rewrite !update_exec. unfold advection_stage.
  rewrite age_accrual_resample, advect_ocean_current_resample by done.
  pose proof (zero_factor_before_wind s Hall) as Hall2.
  set (s2 := exec (advect_ocean_current solvers) (exec age_accrual s)) in *.
  rewrite (advect_wind_zero_factor s2 Hzero Hall2).
  rewrite (advect_wind_zero_factor _ Hzero
             (Hall2 : Forall _ (elements
                                  (resample h (environment_profiles s) s2)))).
  change (environment_profiles s) with (environment_profiles s2).
  rewrite mixing_stage_resample by done.
  rewrite vertical_stage_resample, stranding_stage_resample by done.
  apply retirement_stage_resample.
Qed.

(** *** The element registry *)

Lemma registered_wind_drift_factor
    (variables : gmap string (gmap string (pyval F))) (kwargs : gmap string F) :
  kwargs !! "wind_drift_factor" = None →
  attribute (PassiveTracer_variables variables) kwargs "wind_drift_factor" =
  Some (of_Z 0).
Proof.
  intros Hk. unfold attribute. rewrite Hk.
  unfold PassiveTracer_variables, add_variables, new_variables. cbn.
  rewrite lookup_insert_ne by done. rewrite lookup_insert_eq. cbn.
  by simplify_map_eq.
Qed.

Lemma registered_age_seconds
    (variables : gmap string (gmap string (pyval F))) (kwargs : gmap string F) :
  kwargs !! "age_seconds" = None →
  attribute (PassiveTracer_variables variables) kwargs "age_seconds" =
  Some (of_Z 0).
Proof.
  intros Hk. unfold attribute. rewrite Hk.
  unfold PassiveTracer_variables, add_variables, new_variables. cbn.
  rewrite lookup_insert_eq. cbn.
  by simplify_map_eq.
Qed.

Lemma new_element_lookup
    (variables : gmap string (gmap string (pyval F))) (kwargs m : gmap string F)
    (name : string) :
  new_element variables kwargs = Some m →
  is_Some (variables !! name) →
  m !! name = attribute variables kwargs name.
Proof.
  unfold new_element. intros Hn [spec Hspec].
  repeat case_bool_decide; try discriminate.
  injection Hn as <-.
  by rewrite map_lookup_imap, Hspec.
Qed.

Lemma new_element_wind_drift_factor
    (variables : gmap string (gmap string (pyval F))) (kwargs m : gmap string F) :
  kwargs !! "wind_drift_factor" = None →
  new_element (PassiveTracer_variables variables) kwargs = Some m →
  m !! "wind_drift_factor" = Some (of_Z 0).
Proof.
  intros Hk Hn.
  rewrite (new_element_lookup _ _ _ "wind_drift_factor" Hn).
  - by apply registered_wind_drift_factor.
  - unfold PassiveTracer_variables, add_variables, new_variables. cbn.
    rewrite lookup_insert_ne by done. rewrite lookup_insert_eq. eauto.
Qed.

Lemma new_element_age_seconds
    (variables : gmap string (gmap string (pyval F))) (kwargs m : gmap string F) :
  kwargs !! "age_seconds" = None →
  new_element (PassiveTracer_variables variables) kwargs = Some m →
  m !! "age_seconds" = Some (of_Z 0).
Proof.
  intros Hk Hn.
  rewrite (new_element_lookup _ _ _ "age_seconds" Hn).
  - by apply registered_age_seconds.
  - unfold PassiveTracer_variables, add_variables, new_variables. cbn.
    rewrite lookup_insert_eq. eauto.
Qed.

(** The row the vertical advection makes of a row, in full. *)
Lemma vertical_advection_stage_depth (s : Sim) :
  stage (λ i e e',
           e' = match environment s !! i with
                | Some v =>
                    set_z (vertical_advector solvers (time_step s)
                             (upward_sea_water_velocity v) (position e)) e
                | None => e
                end)
        s (exec (vertical_advection solvers) s).
Proof.
  apply (stage_of_rowwise
           (λ i e, match environment s !! i with
                   | Some v =>
                       set_z (vertical_advector solvers (time_step s)
                                (upward_sea_water_velocity v) (position e)) e
                   | None => e
                   end));
    [by repeat split |].
  intros i. cbn. apply with_environment_lookup.
Qed.

(** *** The claims *)

(** C1: for every ensemble, environment sample, configuration and step
    duration, one call of [update] executes the sub-steps in one fixed
    order: age accrual, current advection, wind advection, then (only with
    [turbulentmixing]) the terminal-velocity recompute directly followed by
    turbulent mixing, then (only with [verticaladvection]) vertical
    advection, then land deactivation, then (only with [max_age_seconds]
    set) age retirement; the state it leaves is the composition of these
    stages in this order, and nothing else runs. *)
Theorem update_substeps_in_fixed_order (s : Sim) :
  trace (update solvers) s = substeps_in_order (config s) ∧
  exec (update solvers) s =
    retirement_stage
      (stranding_stage (vertical_stage (mixing_stage (advection_stage s)))).
Proof. split; [apply update_trace | apply update_exec]. Qed.

(** C2: after one call of [update] the age of every element of the ensemble
    is its age before the call plus the step duration, whatever the
    configuration and the environment are. *)
Theorem update_age_accrual (s : Sim) :
  age_seconds <$> elements (exec (update solvers) s) =
  (λ e, fadd (age_seconds e) (time_step s)) <$> elements s.
Proof.
  apply list_eq. intros i. rewrite !list_lookup_fmap.
  destruct (elements s !! i) as [e |] eqn:He.
  - destruct (update_row s i e He) as (e' & -> & Hage & _).
    cbn. by rewrite Hage.
  - by rewrite (update_row_None s i He).
Qed.

(** C4, amended: the terminal velocity is recomputed only inside the gated
    mixing block.  With [turbulentmixing] exactly [True] the recompute runs
    once, directly before the mixing sub-step, and every element ends the
    step with terminal velocity 0; otherwise [update] never runs it and
    leaves every terminal velocity as it was. *)
Theorem terminal_velocity_recomputed_with_mixing (s : Sim) :
  if is_True (turbulentmixing (processes (config s)))
  then ((∃ rest,
           trace (update solvers) s =
             [AgeAccrual; AdvectOceanCurrent; AdvectWind;
              UpdateTerminalVelocity; VerticalMixing] ++ rest ∧
           UpdateTerminalVelocity ∉ rest) ∧
        Forall (λ e, terminal_velocity e = of_Z 0)
               (elements (exec (update solvers) s)))
  else ((UpdateTerminalVelocity ∉ trace (update solvers) s) ∧
        terminal_velocity <$> elements (exec (update solvers) s) =
        terminal_velocity <$> elements s).
Proof.
  rewrite update_trace. unfold substeps_in_order.
  destruct (is_True (turbulentmixing (processes (config s)))) eqn:Htm.
  - split.
    + eexists. split; [reflexivity |].
      destruct (is_True (verticaladvection (processes (config s)))),
        (max_age_seconds (drift (config s))); cbn; substep_not_in.
    + apply Forall_lookup. intros i e' He'.
      destruct (elements s !! i) as [e |] eqn:He.
      * destruct (update_row s i e He) as (e'' & He'' & _ & _ & Htv & _).
        rewrite Htm in Htv. congruence.
      * rewrite (update_row_None s i He) in He'. discriminate.
  - split.
    + destruct (is_True (verticaladvection (processes (config s)))),
        (max_age_seconds (drift (config s))); cbn; substep_not_in.
    + apply list_eq. intros i. rewrite !list_lookup_fmap.
      destruct (elements s !! i) as [e |] eqn:He.
      * destruct (update_row s i e He) as (e' & -> & _ & _ & Htv & _).
        rewrite Htm in Htv. cbn. by rewrite Htv.
      * by rewrite (update_row_None s i He).
Qed.

(** C5: whenever [update_terminal_velocity] runs it sets the terminal
    velocity of every element to exactly 0, from every state, and changes
    nothing else. *)
Theorem update_terminal_velocity_zero (s : Sim) :
  Forall (λ e, terminal_velocity e = of_Z 0)
         (elements (exec update_terminal_velocity s)) ∧
  elements (exec update_terminal_velocity s) =
    set_terminal_velocity (of_Z 0) <$> elements s ∧
  trace update_terminal_velocity s = [UpdateTerminalVelocity].
Proof.
  split; [| split; reflexivity].
  cbn. apply Forall_fmap, Forall_forall. reflexivity.
Qed.

(** C10: with the defaults of [configspec] one call of [update] runs the
    vertical advection and not the turbulent mixing (nor the retirement
    check): the state it leaves is the stranding check after the vertical
    advection solver after the three unconditional sub-steps, and the depth
    of every row is the one the vertical advector computes.  Each gate is
    an identity test, so in any configuration a process runs, in the trace
    and on the state, exactly when its flag is the boolean [True]. *)
Theorem default_configuration_gates (s : Sim) els env ps dt g :
  trace (update solvers) (mkSim els env ps default_config dt g) =
    [AgeAccrual; AdvectOceanCurrent; AdvectWind; VerticalAdvection;
     DeactivateElements "stranded"] ∧
  exec (update solvers) (mkSim els env ps default_config dt g) =
    stranding_stage
      (exec (vertical_advection solvers)
         (advection_stage (mkSim els env ps default_config dt g))) ∧
  (∀ i e3 v,
     elements (advection_stage (mkSim els env ps default_config dt g)) !! i =
       Some e3 →
     env !! i = Some v →
     ∃ e', elements (exec (update solvers)
                       (mkSim els env ps default_config dt g)) !! i = Some e' ∧
           z (position e') =
             vertical_advector solvers dt (upward_sea_water_velocity v)
               (position e3)) ∧
  (VerticalMixing ∈ trace (update solvers) s ↔
   turbulentmixing (processes (config s)) = PyBool true) ∧
  (VerticalAdvection ∈ trace (update solvers) s ↔
   verticaladvection (processes (config s)) = PyBool true) ∧
  exec (update solvers) s =
    retirement_stage
      (stranding_stage
         (let s3 := advection_stage s in
          let s4 := if is_True (turbulentmixing (processes (config s)))
                    then exec (vertical_mixing solvers)
                           (exec update_terminal_velocity s3)
                    else s3 in
          if is_True (verticaladvection (processes (config s)))
          then exec (vertical_advection solvers) s4
          else s4)) ∧
  (∀ v : pyval F, is_True v = true ↔ v = PyBool true).
Proof.
  split; [by rewrite update_trace |].
  split; [by rewrite update_exec |].
  split.
  { intros i e3 v He3 Hv. rewrite update_exec.
    change (retirement_stage
              (stranding_stage
                 (vertical_stage
                    (mixing_stage
                       (advection_stage
                          (mkSim els env ps default_config dt g))))))
      with (stranding_stage
              (exec (vertical_advection solvers)
                 (advection_stage (mkSim els env ps default_config dt g)))).
    set (s3 := advection_stage (mkSim els env ps default_config dt g)) in *.
    destruct (stage_compose _ _ _ _ _ (vertical_advection_stage_depth s3)
                (stranding_stage_stage (exec (vertical_advection solvers) s3)))
      as (_ & _ & Hrow).
    destruct (Hrow i e3 He3) as (e' & He' & (e4 & He4 & ->)).
    exists (deactivate "stranded"
              (default false
                 (land_mask (exec (vertical_advection solvers) s3) !! i)) e4).
    split; [exact He' |].
    destruct (deactivate_fields "stranded"
                (default false
                   (land_mask (exec (vertical_advection solvers) s3) !! i)) e4)
      as (_ & _ & _ & -> & _).
    change (environment s3) with env in He4. rewrite Hv in He4.
    by rewrite He4. }
  split; [| split; [| split; [| apply is_True_spec]]].
  - rewrite update_trace, <- is_True_spec. unfold substeps_in_order.
    destruct (is_True (turbulentmixing (processes (config s)))),
      (is_True (verticaladvection (processes (config s)))),
      (max_age_seconds (drift (config s))); cbn;
      (split; first [done | substep_not_in | intros _; substep_in]).
  - rewrite update_trace, <- is_True_spec. unfold substeps_in_order.
    destruct (is_True (turbulentmixing (processes (config s)))),
      (is_True (verticaladvection (processes (config s)))),
      (max_age_seconds (drift (config s))); cbn;
      (split; first [done | substep_not_in | intros _; substep_in]).
  - rewrite update_exec. cbv zeta.
    pose proof (stage_compose _ _ _ _ _ (advection_stage_stage s)
                  (mixing_stage_stage (advection_stage s)))
      as ((_ & _ & Hc4 & _) & _).
    destruct (advection_stage_stage s) as ((_ & _ & Hc3 & _) & _).
    unfold vertical_stage. rewrite Hc4.
    unfold mixing_stage. by rewrite Hc3.
Qed.

(** C3: with [turbulentmixing] not [True], one call of [update] never runs
    the mixing solver, and the depth of every element after the call is the
    same for every diffusivity the environment sample and the profiles may
    hold: two runs that differ only in the diffusivity end with identical
    depths. *)
Theorem depth_independent_of_diffusivity (s : Sim) (k : nat → F)
    (ps : list (Profile F)) :
  is_True (turbulentmixing (processes (config s))) = false →
  (VerticalMixing ∉ trace (update solvers) s) ∧
  (VerticalMixing ∉ trace (update solvers) (with_diffusivity k ps s)) ∧
  z ∘ position <$> elements (exec (update solvers) (with_diffusivity k ps s)) =
  z ∘ position <$> elements (exec (update solvers) s).
Proof.
  intros Htm.
  assert (∀ c : Config F,
            is_True (turbulentmixing (processes c)) = false →
            VerticalMixing ∉ substeps_in_order c) as Hno.
  { intros c Hc. unfold substeps_in_order. rewrite Hc.
    destruct (is_True (verticaladvection (processes c))),
      (max_age_seconds (drift c)); cbn; substep_not_in. }
  split; [| split].
  - rewrite update_trace. by apply Hno.
  - rewrite update_trace. by apply Hno.
  - unfold with_diffusivity.
    by rewrite update_resample_unmixed.
Qed.

(** C6, amended: land deactivation runs after every position sub-step of the
    call, and it strands exactly the active elements whose land mask in the
    environment sample of the step is 1.  That sample is the one [update]
    was handed: no sub-step samples the environment again, so the mask is
    not the one of the positions the elements were moved to. *)
Theorem stranded_iff_land_in_sample (s : Sim) (i : nat) (e : Element F)
    (v : Env F) :
  elements s !! i = Some e →
  environment s !! i = Some v →
  status e = Active →
  (∃ e', elements (exec (update solvers) s) !! i = Some e' ∧
         (status e' = Deactivated "stranded" ↔
          feqb (land_binary_mask v) (of_Z 1) = true)) ∧
  environment (exec (update solvers) s) = environment s ∧
  (∃ before after,
     trace (update solvers) s =
       before ++ DeactivateElements "stranded" :: after ∧
     ∀ c, c ∈ after → c = DeactivateElements "retired").
Proof.
  intros He Hv Hst. split; [| split].
  - destruct (update_row s i e He) as (e' & He' & _ & _ & _ & Hs).
    exists e'. split; [exact He' |].
    rewrite Hs, Hst. unfold final_status, land_mask.
    rewrite list_lookup_fmap, Hv. cbn.
    destruct (feqb (land_binary_mask v) (of_Z 1)); cbn;
      destruct (max_age_seconds (drift (config s))) as [m |]; cbn;
      try destruct (fgeb _ m); cbn; split; congruence.
  - apply (update_setting s).
  - rewrite update_trace. unfold substeps_in_order.
    eexists _, _. split.
    + rewrite !app_assoc. rewrite <- (app_assoc _ [_] _). reflexivity.
    + intros c Hc.
      destruct (max_age_seconds (drift (config s)));
        [by apply list_elem_of_singleton in Hc
        | by apply elem_of_nil in Hc].
Qed.

(** C7: an active element that meets both the land condition and the age
    condition in one call of [update] ends the call stranded, not retired:
    the land check runs first and the age check does not overwrite it. *)
Theorem stranded_takes_precedence (s : Sim) (i : nat) (e : Element F)
    (v : Env F) (m : F) :
  elements s !! i = Some e →
  environment s !! i = Some v →
  status e = Active →
  feqb (land_binary_mask v) (of_Z 1) = true →
  max_age_seconds (drift (config s)) = Some m →
  fgeb (fadd (age_seconds e) (time_step s)) m = true →
  ∃ e', elements (exec (update solvers) s) !! i = Some e' ∧
        fgeb (age_seconds e') m = true ∧
        status e' = Deactivated "stranded" ∧
        status e' ≠ Deactivated "retired".
Proof.
  intros He Hv Hst Hland Hmax Hage.
  destruct (update_row s i e He) as (e' & He' & Ha & _ & _ & Hs).
  exists e'. split; [exact He' |].
  assert (status e' = Deactivated "stranded") as Hs'.
  { rewrite Hs, Hst. unfold final_status, land_mask.
    rewrite list_lookup_fmap, Hv, Hmax. cbn.
    rewrite Hland. cbn. by rewrite andb_false_r. }
  split; [by rewrite Ha |]. split; [exact Hs' |].
  rewrite Hs'. discriminate.
Qed.

(** C8, amended: an element that is inactive at the start of a call of
    [update] keeps its status; the deactivation checks rewrite only the
    status of active elements.  Its age is advanced by the step duration
    like that of every other row: [update] has no filter on the status. *)
Theorem inactive_keeps_status (s : Sim) (i : nat) (e : Element F) :
  elements s !! i = Some e →
  is_active (status e) = false →
  ∃ e', elements (exec (update solvers) s) !! i = Some e' ∧
        status e' = status e ∧
        age_seconds e' = fadd (age_seconds e) (time_step s).
Proof.
  intros He Hst.
  destruct (update_row s i e He) as (e' & He' & Ha & _ & _ & Hs).
  exists e'. split; [exact He' |]. split; [| exact Ha].
  rewrite Hs. unfold final_status. rewrite Hst, andb_false_r.
  destruct (max_age_seconds (drift (config s))); [| reflexivity].
  by rewrite Hst, andb_false_r.
Qed.

(** *** Further lemmas on the stages *)

Lemma stage_fmap {A} (f g : Element F → A) R (s s' : Sim) :
  stage R s s' → (∀ i e e', R i e e' → f e' = g e) →
  f <$> elements s' = g <$> elements s.
Proof.
  intros (_ & Hl & Hrow) HR.
  apply list_eq. intros i. rewrite !list_lookup_fmap.
  destruct (elements s !! i) as [e |] eqn:He.
  - destruct (Hrow i e He) as (e' & -> & HRe). cbn. f_equal. by eapply HR.
  - apply lookup_ge_None in He. rewrite <- Hl in He.
    by rewrite (lookup_ge_None_2 _ _ He).
Qed.

Lemma imap_imap_commute (g h : nat → Element F → Element F)
    (es : list (Element F)) :
  (∀ i e, g i (h i e) = h i (g i e)) →
  imap g (imap h es) = imap h (imap g es).
Proof.
  intros Hc. apply list_eq. intros i. rewrite !list_lookup_imap.
  destruct (es !! i); cbn; [by rewrite Hc | reflexivity].
Qed.

Lemma fmap_imap_commute (g : Element F → Element F)
    (h : nat → Element F → Element F) (es : list (Element F)) :
  (∀ i e, g (h i e) = h i (g e)) →
  g <$> imap h es = imap h (g <$> es).
Proof.
  intros Hc. apply list_eq. intros i.
  rewrite list_lookup_fmap, !list_lookup_imap, list_lookup_fmap.
  destruct (es !! i); cbn; [by rewrite Hc | reflexivity].
Qed.

(** The two deactivation checks change nothing but the status. *)
Lemma deactivation_stage (s : Sim) :
  stage (λ _ e e',
           position e' = position e ∧ age_seconds e' = age_seconds e ∧
           wind_drift_factor e' = wind_drift_factor e ∧
           terminal_velocity e' = terminal_velocity e)
        s (retirement_stage (stranding_stage s)).
Proof.
  eapply stage_weaken;
    [| eapply stage_compose;
       [apply stranding_stage_stage | apply retirement_stage_stage]].
  intros i e e2 He. cbv beta in He |- *.
  destruct He as (e1 & -> & ->).
  set (e1 := deactivate "stranded" (default false (land_mask s !! i)) e).
  destruct (deactivate_fields "stranded"
              (default false (land_mask s !! i)) e) as (A1 & A2 & A3 & A4 & _).
  fold e1 in A1, A2, A3, A4.
  destruct (max_age_seconds (drift (config (stranding_stage s)))) as [m |];
    [| by rewrite A1, A2, A3, A4].
  destruct (deactivate_fields "retired" (fgeb (age_seconds e1) m) e1)
    as (B1 & B2 & B3 & B4 & _).
  by rewrite B1, B2, B3, B4, A1, A2, A3, A4.
Qed.

(** *** Stages under other terminal velocities *)

Lemma with_environment_terminal_velocity f t (s : Sim) :
  (∀ v e x, f v (set_terminal_velocity x e) = set_terminal_velocity x (f v e)) →
  with_environment f (with_terminal_velocity t s) =
  imap (λ i e, set_terminal_velocity (t i) e) (with_environment f s).
Proof.
  intros Hf. unfold with_environment. cbn.
  apply imap_imap_commute. intros i e.
  destruct (environment s !! i); [apply Hf | reflexivity].
Qed.

Lemma age_accrual_terminal_velocity t (s : Sim) :
  exec age_accrual (with_terminal_velocity t s) =
  with_terminal_velocity t (exec age_accrual s).
Proof.
  cbn. unfold with_terminal_velocity, set_elements. cbn. f_equal.
  by apply fmap_imap_commute.
Qed.

Lemma advect_ocean_current_terminal_velocity t (s : Sim) :
  exec (advect_ocean_current solvers) (with_terminal_velocity t s) =
  with_terminal_velocity t (exec (advect_ocean_current solvers) s).
Proof.
  cbn. unfold with_terminal_velocity, set_elements. cbn. f_equal.
  by apply (with_environment_terminal_velocity _ t s).
Qed.

Lemma advect_wind_terminal_velocity t (s : Sim) :
  exec (advect_wind solvers) (with_terminal_velocity t s) =
  with_terminal_velocity t (exec (advect_wind solvers) s).
Proof.
  cbn. unfold with_terminal_velocity, set_elements. cbn. f_equal.
  by apply (with_environment_terminal_velocity _ t s).
Qed.

Lemma vertical_stage_terminal_velocity t (s : Sim) :
  vertical_stage (with_terminal_velocity t s) =
  with_terminal_velocity t (vertical_stage s).
Proof.
  unfold vertical_stage.
  change (config (with_terminal_velocity t s)) with (config s).
  destruct (is_True (verticaladvection (processes (config s))));
    [| reflexivity].
  cbn. unfold with_terminal_velocity, set_elements. cbn. f_equal.
  by apply (with_environment_terminal_velocity _ t s).
Qed.

Lemma deactivate_elements_terminal_velocity mask reason t (s : Sim) :
  exec (deactivate_elements mask reason) (with_terminal_velocity t s) =
  with_terminal_velocity t (exec (deactivate_elements mask reason) s).
Proof.
  cbn. unfold with_terminal_velocity, set_elements. cbn. f_equal.
  apply imap_imap_commute. intros i e. unfold deactivate. cbn.
  by destruct (default false (mask !! i) && is_active (status e)).
Qed.

Lemma age_mask_terminal_velocity m t (s : Sim) :
  age_mask m (with_terminal_velocity t s) = age_mask m s.
Proof.
  unfold age_mask. cbn. apply list_eq. intros i.
  rewrite !list_lookup_fmap, list_lookup_imap.
  by destruct (elements s !! i).
Qed.

Lemma deactivation_terminal_velocity t (s : Sim) :
  retirement_stage (stranding_stage (with_terminal_velocity t s)) =
  with_terminal_velocity t (retirement_stage (stranding_stage s)).
Proof.
  unfold stranding_stage.
  change (land_mask (with_terminal_velocity t s)) with (land_mask s).
  rewrite deactivate_elements_terminal_velocity.
  set (s1 := exec (deactivate_elements (land_mask s) "stranded") s).
  unfold retirement_stage.
  change (config (with_terminal_velocity t s1)) with (config s1).
  destruct (max_age_seconds (drift (config s1))) as [m |]; [| reflexivity].
  rewrite age_mask_terminal_velocity.
  apply deactivate_elements_terminal_velocity.
Qed.

Lemma advection_stage_terminal_velocity t (s : Sim) :
  advection_stage (with_terminal_velocity t s) =
  with_terminal_velocity t (advection_stage s).
Proof.
  unfold advection_stage.
  by rewrite age_accrual_terminal_velocity,
    advect_ocean_current_terminal_velocity, advect_wind_terminal_velocity.
Qed.

Lemma update_terminal_velocity_forgets t (s : Sim) :
  exec update_terminal_velocity (with_terminal_velocity t s) =
  exec update_terminal_velocity s.
Proof.
  cbn. unfold set_elements. cbn. f_equal.
  apply list_eq. intros i.
  rewrite !list_lookup_fmap, list_lookup_imap.
  by destruct (elements s !! i).
Qed.

(** With the mixing block on, [update] forgets the terminal velocities it
    was handed; with the block off it carries them through. *)
Lemma update_with_terminal_velocity t (s : Sim) :
  exec (update solvers) (with_terminal_velocity t s) =
  if is_True (turbulentmixing (processes (config s)))
  then exec (update solvers) s
  else with_terminal_velocity t (exec (update solvers) s).
Proof.
  rewrite !update_exec, advection_stage_terminal_velocity.
  destruct (advection_stage_stage s) as ((_ & _ & Hc & _) & _).
  set (s3 := advection_stage s) in *.
  unfold mixing_stage at 1.
  change (config (with_terminal_velocity t s3)) with (config s3).
  unfold mixing_stage. rewrite Hc.
  destruct (is_True (turbulentmixing (processes (config s)))).
  - by rewrite update_terminal_velocity_forgets.
  - by rewrite vertical_stage_terminal_velocity,
      deactivation_terminal_velocity.
Qed.

(** *** Further shared facts *)

Lemma update_fmap {A} (f g : Element F → A) (s : Sim) :
  (∀ i e e', updated s i e e' → f e' = g e) →
  f <$> elements (exec (update solvers) s) = g <$> elements s.
Proof. apply stage_fmap, update_stage. Qed.

Lemma update_row_inactive (s : Sim) i e :
  elements s !! i = Some e → is_active (status e) = false →
  ∃ e', elements (exec (update solvers) s) !! i = Some e' ∧
        status e' = status e.
Proof.
  intros He Hst.
  destruct (update_row s i e He) as (e' & He' & _ & _ & _ & Hs).
  exists e'. split; [exact He' |].
  rewrite Hs. unfold final_status. rewrite Hst, andb_false_r.
  destruct (max_age_seconds (drift (config s))); [| reflexivity].
  by rewrite Hst, andb_false_r.
Qed.

Lemma update_fmap_moved {A} (f : Element F → A) (s : Sim) :
  (∀ e e', position e' = position e → age_seconds e' = age_seconds e →
           wind_drift_factor e' = wind_drift_factor e →
           terminal_velocity e' = terminal_velocity e → f e' = f e) →
  f <$> elements (exec (update solvers) s) = f <$> elements (movement_stage s).
Proof.
  intros Hf. rewrite update_exec. fold (movement_stage s).
  apply (stage_fmap f f _ _ _ (deactivation_stage (movement_stage s))).
  intros i e e' (? & ? & ? & ?). by apply Hf.
Qed.

Lemma movement_stage_resample h (s : Sim) :
  keeps h x_sea_water_velocity → keeps h y_sea_water_velocity →
  keeps h x_wind → keeps h y_wind →
  keeps h upward_sea_water_velocity → keeps h ocean_vertical_diffusivity →
  elements (movement_stage (resample h (environment_profiles s) s)) =
  elements (movement_stage s).
Proof.
  intros Hu Hv Hx Hy Hw Hk. unfold movement_stage.
  rewrite advection_stage_resample by done.
  change (environment_profiles s)
    with (environment_profiles (advection_stage s)).
  rewrite mixing_stage_resample by done.
  by rewrite vertical_stage_resample.
Qed.

Lemma fmap_with_terminal_velocity {A} (f : Element F → A) t (s : Sim) :
  (∀ x e, f (set_terminal_velocity x e) = f e) →
  f <$> elements (with_terminal_velocity t s) = f <$> elements s.
Proof.
  intros Hf. cbn. apply list_eq. intros i.
  rewrite !list_lookup_fmap, list_lookup_imap.
  destruct (elements s !! i); cbn; [by rewrite Hf | reflexivity].
Qed.

(** *** Further properties of the module *)

(** X1: the terminal velocity an element carries never steers it.  Whatever
    terminal velocities the ensemble holds before a call of [update], the
    positions, ages and statuses after the call are the same: with the
    mixing block on they are overwritten with 0 before the mixer reads them,
    and no other sub-step reads them. *)
Theorem terminal_velocity_never_steers (s : Sim) (t : nat → F) :
  position <$> elements (exec (update solvers) (with_terminal_velocity t s)) =
    position <$> elements (exec (update solvers) s) ∧
  age_seconds <$>
    elements (exec (update solvers) (with_terminal_velocity t s)) =
    age_seconds <$> elements (exec (update solvers) s) ∧
  status <$> elements (exec (update solvers) (with_terminal_velocity t s)) =
    status <$> elements (exec (update solvers) s) ∧
  rng (exec (update solvers) (with_terminal_velocity t s)) =
    rng (exec (update solvers) s).
Proof.
  rewrite update_with_terminal_velocity.
  destruct (is_True (turbulentmixing (processes (config s)))); [done |].
  repeat split; by apply fmap_with_terminal_velocity.
Qed.

(** X2: the fate of an active element in one call of [update].  It ends
    stranded when the land mask of its environment sample is 1; otherwise
    retired when [max_age_seconds] is set and its age after the accrual of
    this call has reached it; otherwise it stays active. *)
Theorem active_element_fate (s : Sim) (i : nat) (e : Element F) (v : Env F) :
  elements s !! i = Some e →
  environment s !! i = Some v →
  status e = Active →
  ∃ e', elements (exec (update solvers) s) !! i = Some e' ∧
        status e' =
          if feqb (land_binary_mask v) (of_Z 1)
          then Deactivated "stranded"
          else match max_age_seconds (drift (config s)) with
               | Some m =>
                   if fgeb (fadd (age_seconds e) (time_step s)) m
                   then Deactivated "retired"
                   else Active
               | None => Active
               end.
Proof.
  intros He Hv Hst.
  destruct (update_row s i e He) as (e' & He' & _ & _ & _ & Hs).
  exists e'. split; [exact He' |].
  rewrite Hs, Hst. unfold final_status, land_mask.
  rewrite list_lookup_fmap, Hv. cbn.
  destruct (feqb (land_binary_mask v) (of_Z 1)); cbn;
    destruct (max_age_seconds (drift (config s))) as [m |]; cbn;
    try destruct (fgeb _ m); cbn; by rewrite ?andb_false_r.
Qed.

(** X3: with [max_age_seconds] left at [None] the retirement check is not
    run, and no element has the reason "retired" after the call that did
    not have it before. *)
Theorem no_retirement_without_max_age (s : Sim) :
  max_age_seconds (drift (config s)) = None →
  (DeactivateElements "retired" ∉ trace (update solvers) s) ∧
  ∀ i e e',
    elements s !! i = Some e →
    elements (exec (update solvers) s) !! i = Some e' →
    status e' = Deactivated "retired" → status e = Deactivated "retired".
Proof.
  intros Hnone. split.
  - rewrite update_trace. unfold substeps_in_order. rewrite Hnone.
    destruct (is_True (turbulentmixing (processes (config s)))),
      (is_True (verticaladvection (processes (config s)))); cbn;
      substep_not_in.
  - intros i e e' He He'.
    destruct (update_row s i e He) as (e'' & He'' & _ & _ & _ & Hs).
    assert (e'' = e') as -> by congruence.
    rewrite Hs. unfold final_status. rewrite Hnone.
    destruct (default false (land_mask s !! i) && is_active (status e));
      [discriminate | done].
Qed.

(** X4: one call of [update] keeps the ensemble in place and writes nothing
    it was not meant to: the ensemble has the same length, every drift
    factor is as before, and the environment sample, the profiles, the
    configuration and the time step are untouched. *)
Theorem update_frame (s : Sim) :
  length (elements (exec (update solvers) s)) = length (elements s) ∧
  wind_drift_factor <$> elements (exec (update solvers) s) =
    wind_drift_factor <$> elements s ∧
  environment (exec (update solvers) s) = environment s ∧
  environment_profiles (exec (update solvers) s) = environment_profiles s ∧
  config (exec (update solvers) s) = config s ∧
  time_step (exec (update solvers) s) = time_step s.
Proof.
  split; [apply update_length |]. split; [| apply update_setting].
  apply update_fmap. by intros i e e' (_ & Hw & _).
Qed.

(** X5: ages add up over calls.  After [n] calls of [update], each with the
    environment sample of its step, the age of every element is its age
    before the first call with the step duration added [n] times. *)
Theorem calls_age_accrual (samples : list (list (Env F) * list (Profile F)))
    (s : Sim) :
  age_seconds <$> elements (calls solvers samples s) =
  (λ e, Nat.iter (length samples) (λ a, fadd a (time_step s)) (age_seconds e))
    <$> elements s.
Proof.
  revert s. induction samples as [| [vs ps] rest IH]; intros s.
  - cbn. by apply list_fmap_ext.
  - cbn [calls length].
    set (s0 := mkSim (elements s) vs ps (config s) (time_step s) (rng s)).
    rewrite IH.
    destruct (update_setting s0) as (_ & _ & _ & ->).
    apply (update_fmap _ _ s0).
    intros i e e' (Ha & _). cbn [time_step s0].
    by rewrite Ha, Nat.iter_succ_r.
Qed.

(** X6: deactivation is permanent.  An element that is inactive keeps its
    status, reason included, through any number of further calls of
    [update], whatever environment samples those calls are handed. *)
Theorem calls_keep_inactive
    (samples : list (list (Env F) * list (Profile F))) (s : Sim) (i : nat)
    (e : Element F) :
  elements s !! i = Some e →
  is_active (status e) = false →
  ∃ e', elements (calls solvers samples s) !! i = Some e' ∧
        status e' = status e.
Proof.
  revert s e. induction samples as [| [vs ps] rest IH]; intros s e He Hst.
  - exists e. by split.
  - cbn [calls].
    set (s0 := mkSim (elements s) vs ps (config s) (time_step s) (rng s)).
    destruct (update_row_inactive s0 i e He Hst) as (e1 & He1 & Hs1).
    destruct (IH _ e1 He1) as (e' & He' & Hs'); [by rewrite Hs1 |].
    exists e'. split; [exact He' | congruence].
Qed.


(** X8: the land mask decides the status and nothing else.  The positions,
    ages and terminal velocities after a call of [update] are the same for
    every land mask the environment sample may hold: an element that
    strands in a call has still been moved and aged by that call. *)
Theorem land_mask_only_decides_status (s : Sim) (l : nat → F) :
  position <$> elements (exec (update solvers) (with_land l s)) =
    position <$> elements (exec (update solvers) s) ∧
  age_seconds <$> elements (exec (update solvers) (with_land l s)) =
    age_seconds <$> elements (exec (update solvers) s) ∧
  terminal_velocity <$> elements (exec (update solvers) (with_land l s)) =
    terminal_velocity <$> elements (exec (update solvers) s).
Proof.
  unfold with_land.
  repeat split;
    rewrite !update_fmap_moved, movement_stage_resample by (done || congruence);
    reflexivity.
Qed.

(** X9: the class tables agree with each other.  Every required variable
    but [land_binary_mask] has a fallback value, so the land mask is the one
    field a reader must supply; every fallback value is for a required
    variable; every required profile is a required variable; and no
    variable is required twice. *)
Theorem fallback_values_cover_all_but_land_mask :
  (∀ name, name ∈ required_variables →
           (fallback_values !! name = None ↔ name = "land_binary_mask")) ∧
  (∀ name, is_Some (fallback_values !! name) → name ∈ required_variables) ∧
  required_profiles ⊆ required_variables ∧
  NoDup required_variables.
Proof.
  split; [| split; [| split]].
  - intros name Hin. unfold required_variables in Hin. cbn in Hin.
    repeat (apply elem_of_cons in Hin as [-> | Hin]);
      [.. | by apply elem_of_nil in Hin];
      (split; [intros Hn; by vm_compute in Hn | intros Hn; try done]).
  - intros name [x Hx].
    destruct (decide (name ∈ required_variables)) as [| Hn]; [done |].
    unfold required_variables in Hn. cbn in Hn.
    rewrite !not_elem_of_cons in Hn. destruct_and!.
    unfold fallback_values in Hx. by simplify_map_eq.
  - intros name Hin. apply list_elem_of_singleton in Hin as ->.
    unfold required_variables. cbn. substep_in.
  - unfold required_variables. cbn.
    repeat (apply NoDup_cons; split;
            [intros Hin;
             repeat (apply elem_of_cons in Hin as [Hin | Hin];
                     [discriminate |]);
             by apply elem_of_nil in Hin |]).
    apply NoDup_nil. done.
Qed.

(** X10: importing the module registers exactly two element variables.
    The registry afterwards has the names it had plus [wind_drift_factor]
    and [age_seconds], the description of every other name is as before,
    and registering a second time changes nothing. *)
Theorem import_registers_two_variables
    (variables : gmap string (gmap string (pyval F))) :
  dom (PassiveTracer_variables variables) =
    {[ "wind_drift_factor"; "age_seconds" ]} ∪ dom variables ∧
  (∀ name, name ∉ ({[ "wind_drift_factor"; "age_seconds" ]} : gset string) →
           PassiveTracer_variables variables !! name = variables !! name) ∧
  PassiveTracer_variables (PassiveTracer_variables variables) =
    PassiveTracer_variables variables.
Proof.
  unfold PassiveTracer_variables, add_variables, new_variables. cbn.
  split; [| split].
  - rewrite !dom_insert_L. apply set_eq. intros name.
    rewrite !elem_of_union, !elem_of_singleton. tauto.
  - intros name Hn.
    apply not_elem_of_union in Hn as [Hw Ha].
    apply not_elem_of_singleton in Hw, Ha.
    by rewrite !lookup_insert_ne.
  - apply map_eq. intros name.
    rewrite !lookup_insert. by repeat case_decide.
Qed.


Lemma filter_length_pointwise (l k : list (Element F)) :
  length k = length l →
  (∀ i e e', l !! i = Some e → k !! i = Some e' →
             is_active (status e') = true → is_active (status e) = true) →
  (length (filter (λ e, is_active (status e) = true) k) ≤
   length (filter (λ e, is_active (status e) = true) l))%nat.
Proof.
  revert k. induction l as [| e l IH]; intros [| e' k] Hlen Hrow;
    try discriminate; [done |].
  assert (length (filter (λ e, is_active (status e) = true) k) ≤
          length (filter (λ e, is_active (status e) = true) l))%nat as Hle.
  { apply IH; [by injection Hlen |].
    intros i x x' Hx Hx'. by apply (Hrow (S i)). }
  rewrite !filter_cons.
  destruct (decide (is_active (status e') = true)) as [Ha |].
  - rewrite decide_True by (by apply (Hrow 0 e e')). cbn. lia.
  - destruct (decide (is_active (status e) = true)); cbn; lia.
Qed.


(** X12: one call of [update] never makes an element active: the number of
    active elements of the ensemble does not grow. *)
Theorem active_count_never_grows (s : Sim) :
  (active_count (exec (update solvers) s) ≤ active_count s)%nat.
Proof.
  unfold active_count. apply filter_length_pointwise.
  - apply update_length.
  - intros i e e' He He' Ha.
    destruct (is_active (status e)) eqn:Hst; [done |].
    destruct (update_row_inactive s i e He Hst) as (e'' & He'' & Hs).
    assert (e'' = e') as -> by congruence.
    by rewrite Hs, Hst in Ha.
Qed.

(** *** One row under the wind *)

Lemma stage_lookup_fmap {A} (f g : Element F → A) R (s s' : Sim) i :
  stage R s s' → (∀ i e e', R i e e' → f e' = g e) →
  f <$> elements s' !! i = g <$> elements s !! i.
Proof.
  intros Hst HR.
  pose proof (stage_fmap f g R s s' Hst HR) as Hmap.
  apply (f_equal (λ l, l !! i)) in Hmap.
  by rewrite !list_lookup_fmap in Hmap.
Qed.

Lemma vertical_mixing_horizontal (s : Sim) :
  stage (λ _ e e', horizontal e' = horizontal e)
        s (exec (vertical_mixing solvers) s).
Proof.
  destruct (mix_from_lookup s (elements s) 0 (rng s)) as [zs Hzs].
  eapply stage_weaken;
    [| apply (stage_of_rowwise (λ i e, set_z (zs i) e));
       [by repeat split | intros i; cbn; apply Hzs]].
  by intros i e e' ->.
Qed.

Lemma vertical_advection_horizontal (s : Sim) :
  stage (λ _ e e', horizontal e' = horizontal e)
        s (exec (vertical_advection solvers) s).
Proof.
  eapply stage_weaken;
    [| eapply stage_of_rowwise;
       [by repeat split | intros i; cbn; apply with_environment_lookup]].
  cbn. intros i e e' ->. by destruct (environment s !! i).
Qed.

(** After the advection stage no stage moves an element horizontally. *)
Lemma after_advection_horizontal (s : Sim) :
  stage (λ _ e e', horizontal e' = horizontal e)
        s (retirement_stage (stranding_stage (vertical_stage (mixing_stage s)))).
Proof.
  assert (stage (λ _ e e', horizontal e' = horizontal e) s (mixing_stage s))
    as Hm.
  { unfold mixing_stage.
    destruct (is_True (turbulentmixing (processes (config s)))).
    - eapply stage_weaken;
        [| eapply stage_compose;
           [apply update_terminal_velocity_stage
           | apply vertical_mixing_horizontal]].
      intros i e e2 He. cbv beta in He. by destruct He as (e1 & -> & ->).
    - eapply stage_weaken; [| apply stage_refl]. by intros i e e' ->. }
  assert (stage (λ _ e e', horizontal e' = horizontal e)
            (mixing_stage s) (vertical_stage (mixing_stage s))) as Hv.
  { unfold vertical_stage.
    destruct (is_True (verticaladvection
                         (processes (config (mixing_stage s))))).
    - apply vertical_advection_horizontal.
    - eapply stage_weaken; [| apply stage_refl]. by intros i e e' ->. }
  eapply stage_weaken;
    [| eapply stage_compose;
       [eapply stage_compose; [exact Hm | exact Hv]
       | apply deactivation_stage]].
  intros i e e3 He. cbv beta in He.
  destruct He as (e2 & (e1 & H1 & H2) & (Hp & _)).
  unfold horizontal in *. rewrite Hp. congruence.
Qed.

(** The wind sub-step of [update] leaves a row with drift factor 0 where the
    current put it, whatever the wind and the other rows are. *)
Lemma advection_stage_row_zero_factor (s : Sim) i e :
  (∀ dt wx wy p, wind_advector solvers dt wx wy (of_Z 0) p = p) →
  elements s !! i = Some e →
  wind_drift_factor e = of_Z 0 →
  elements (advection_stage s) !! i =
  elements (exec (advect_ocean_current solvers) (exec age_accrual s)) !! i.
Proof.
  intros Hzero He Hw. unfold advection_stage.
  destruct (stage_compose _ _ _ _ _ (age_accrual_stage s)
              (advect_ocean_current_stage (exec age_accrual s)))
    as (_ & _ & Hrow).
  destruct (Hrow i e He) as (e2 & He2 & (e1 & -> & (_ & Hw2 & _))).
  set (s2 := exec (advect_ocean_current solvers) (exec age_accrual s)) in *.
  rewrite He2.
  change (elements (exec (advect_wind solvers) s2))
    with (with_environment (λ v e,
            set_position
              (wind_advector solvers (time_step s2) (x_wind v) (y_wind v)
                 (wind_drift_factor e) (position e)) e) s2).
  rewrite with_environment_lookup, He2.
  cbn [fmap option_fmap option_map]. f_equal.
  destruct (environment s2 !! i); [| reflexivity].
  cbn in Hw2. rewrite Hw2, Hw, Hzero. by destruct e2.
Qed.

(** C9: an element created without an explicit [wind_drift_factor] has the
    registered default 0.0, and one created without an explicit
    [age_seconds] has age 0.  A row of the ensemble that carries the drift
    factor it was so created with is not displaced by the wind sub-step of
    [update], whatever the wind field and the other rows are, so its
    horizontal position after the call is the same for every wind (given
    the scaling rule of the wind solver: factor 0 is no displacement); and
    when every row is such a row, the whole result of [update] is the same
    for every wind. *)
Theorem default_element_has_no_wind_drift
    (variables : gmap string (gmap string (pyval F))) (s : Sim) (i : nat)
    (e : Element F) :
  (∀ dt wx wy p, wind_advector solvers dt wx wy (of_Z 0) p = p) →
  elements s !! i = Some e →
  (∃ kwargs m : gmap string F,
     kwargs !! "wind_drift_factor" = None ∧
     new_element (PassiveTracer_variables variables) kwargs = Some m ∧
     m !! "wind_drift_factor" = Some (wind_drift_factor e)) →
  wind_drift_factor e = of_Z 0 ∧
  elements (advection_stage s) !! i =
    elements (exec (advect_ocean_current solvers) (exec age_accrual s)) !! i ∧
  (∀ wx wy,
     horizontal <$> elements (exec (update solvers) (with_wind wx wy s)) !! i =
     horizontal <$> elements (exec (update solvers) s) !! i) ∧
  (∀ wx wy,
     Forall (λ e', wind_drift_factor e' = wind_drift_factor e) (elements s) →
     elements (exec (update solvers) (with_wind wx wy s)) =
     elements (exec (update solvers) s)) ∧
  (∀ kwargs m : gmap string F,
     kwargs !! "wind_drift_factor" = None →
     new_element (PassiveTracer_variables variables) kwargs = Some m →
     m !! "wind_drift_factor" = Some (of_Z 0)) ∧
  (∀ kwargs m : gmap string F,
     kwargs !! "age_seconds" = None →
     new_element (PassiveTracer_variables variables) kwargs = Some m →
     m !! "age_seconds" = Some (of_Z 0)).
Proof.
  intros Hzero He (kwargs & m & Hk & Hn & Hm).
  assert (wind_drift_factor e = of_Z 0) as Hw.
  { rewrite (new_element_wind_drift_factor variables kwargs m Hk Hn) in Hm.
    congruence. }
  split; [exact Hw |].
  split; [by apply (advection_stage_row_zero_factor s i e) |].
  split; [| split; [| split]].
  - intros wx wy.
    assert (∀ s' : Sim, elements s' !! i = Some e →
              horizontal <$> elements (exec (update solvers) s') !! i =
              horizontal <$>
                elements (exec (advect_ocean_current solvers)
                            (exec age_accrual s')) !! i) as Hrow.
    { intros s' He'. rewrite update_exec.
      rewrite (stage_lookup_fmap horizontal horizontal _ _ _ i
                 (after_advection_horizontal (advection_stage s')))
        by (by intros).
      by rewrite (advection_stage_row_zero_factor s' i e Hzero He' Hw). }
    rewrite (Hrow s He), (Hrow (with_wind wx wy s) He).
    unfold with_wind.
    by rewrite age_accrual_resample, advect_ocean_current_resample.
  - intros wx wy Hall. unfold with_wind.
    rewrite update_resample_zero_factor; [done | exact Hzero | | done ..].
    eapply Forall_impl; [exact Hall |]. intros e' He'. cbn in He'. congruence.
  - intros kwargs' m'. apply new_element_wind_drift_factor.
  - intros kwargs' m'. apply new_element_age_seconds.
Qed.

End Properties.

(** ** Runs in the concrete world *)

Local Open Scope Z_scope.

Example update_run :
  exec (update plane_solvers)
       (run_of (retiring_config 20)
               [float_at 0 0 1 Active; float_at 7 15 0 Active;
                float_at 9 15 0 Active]
               [sea 1 2 0; sea 1 2 0; sea 1 2 1]) =
  run_of (retiring_config 20)
         [mkElement (mkPosition 30 0 0) 10 1 5 Active;
          mkElement (mkPosition 17 0 0) 25 0 5 (Deactivated "retired");
          mkElement (mkPosition 19 0 0) 25 0 5 (Deactivated "stranded")]
         [sea 1 2 0; sea 1 2 0; sea 1 2 1].
Proof. reflexivity. Qed.

Example update_run_mixing :
  exec (update plane_solvers)
       (run_of mixing_config [float_at 0 0 0 Active; float_at 1 0 0 Active]
               [sea 0 0 0; sea 0 0 0]) =
  mkSim [mkElement (mkPosition 0 0 0) 10 0 0 Active;
         mkElement (mkPosition 1 0 2) 10 0 0 Active]
        [sea 0 0 0; sea 0 0 0] [[2; 2]; [2; 2]]%Z mixing_config 10%Z 2%Z.
Proof. reflexivity. Qed.

(** With the defaults the vertical advection solver has acted on the state:
    a vertical velocity of 3 over 10 seconds lifts the element to depth 30. *)
Example default_run_advects_vertically :
  position <$> elements (exec (update plane_solvers) rising_run) =
  [mkPosition 0 0 30].
Proof. reflexivity. Qed.

(** Creating an element: the horizontal position alone is enough; a keyword
    outside the registry and a registered variable without value or default
    are errors; an explicit drift factor replaces the default. *)
Example new_element_runs :
  new_element (PassiveTracer_variables position_variables) seed_kwargs =
    Some seeded_attributes ∧
  new_element (PassiveTracer_variables position_variables)
    (<["terminal_velocity" := 5]> seed_kwargs) = None ∧
  new_element (PassiveTracer_variables position_variables) {[ "lon" := 3 ]} =
    None ∧
  new_element (PassiveTracer_variables position_variables)
    (<["wind_drift_factor" := 1]> seed_kwargs) =
    Some (<["wind_drift_factor" := 1]> seeded_attributes).
Proof. repeat split; vm_compute; reflexivity. Qed.

(** C4, as stated, fails: with the default configuration the call does not
    recompute the terminal velocity, and the element keeps the terminal
    velocity 5 it had. *)
Lemma terminal_velocity_not_recomputed_by_default :
  ¬ terminal_velocity_recomputed plane_solvers drifting_run ∧
  terminal_velocity <$> elements (exec (update plane_solvers) drifting_run) =
  [5].
Proof.
  split; [| reflexivity].
  unfold terminal_velocity_recomputed. cbn.
  intros Hin.
  repeat (apply elem_of_cons in Hin as [Hin | Hin]; [discriminate |]).
  by apply elem_of_nil in Hin.
Qed.

(** C6, as stated, fails: an element sampled at sea and carried by the
    current onto land is not stranded by this call. *)
Lemma moved_onto_land_not_stranded :
  sampled_from east_land drifting_run ∧
  ¬ stranded_at_new_position plane_solvers east_land drifting_run.
Proof.
  split; [by repeat constructor |].
  intros Hclaim.
  specialize (Hclaim 0%nat (float_at 0 0 0 Active)
                (mkElement (mkPosition 10 0 0) 10 0 5 Active)
                eq_refl eq_refl eq_refl).
  destruct Hclaim as [_ Hland].
  specialize (Hland eq_refl). discriminate.
Qed.

(** C8, as stated, fails: the age of an element that is stranded already
    goes from 5 to 15. *)
Lemma inactive_element_ages :
  ¬ inactive_untouched plane_solvers stranded_run.
Proof.
  intros Hclaim.
  specialize (Hclaim 0%nat (float_at 0 5 0 (Deactivated "stranded"))
                (mkElement (mkPosition 0 0 0) 15 0 5 (Deactivated "stranded"))
                eq_refl eq_refl eq_refl).
  destruct Hclaim as [_ Hage]. discriminate.
Qed.

(** ** The theorems at concrete inputs *)

(** C3 on [windy_run], against a diffusivity of 7 and a profile of 9. *)
Lemma depth_independent_of_diffusivity_witness :
  is_True (turbulentmixing (processes (config windy_run))) = false ∧
  (VerticalMixing ∉ trace (update plane_solvers) windy_run) ∧
  (VerticalMixing ∉
     trace (update plane_solvers)
           (with_diffusivity (λ _, 7) [[9]] windy_run)) ∧
  z ∘ position <$>
    elements (exec (update plane_solvers)
                (with_diffusivity (λ _, 7) [[9]] windy_run)) =
  z ∘ position <$> elements (exec (update plane_solvers) windy_run).
Proof.
  split; [reflexivity |].
  exact (depth_independent_of_diffusivity plane_solvers windy_run
           (λ _, 7) [[9]] eq_refl).
Defined.

(** C6 (amended) on [landfall_run]. *)
Lemma stranded_iff_land_in_sample_witness :
  (elements landfall_run !! 0%nat = Some (float_at 0 0 0 Active) ∧
   environment landfall_run !! 0%nat = Some (sea 1 0 1) ∧
   status (float_at 0 0 0 Active) = Active) ∧
  (∃ e', elements (exec (update plane_solvers) landfall_run) !! 0%nat =
           Some e' ∧
         (status e' = Deactivated "stranded" ↔ feqb 1 (of_Z 1) = true)) ∧
  environment (exec (update plane_solvers) landfall_run) =
    environment landfall_run ∧
  (∃ before after,
     trace (update plane_solvers) landfall_run =
       before ++ DeactivateElements "stranded" :: after ∧
     ∀ c, c ∈ after → c = DeactivateElements "retired").
Proof.
  split; [by repeat split |].
  exact (stranded_iff_land_in_sample plane_solvers landfall_run
           0%nat (float_at 0 0 0 Active) (sea 1 0 1)
           eq_refl eq_refl eq_refl).
Defined.

(** C7 on [old_landfall_run]: on land, and of age 10 against a maximum
    of 5. *)
Lemma stranded_takes_precedence_witness :
  (elements old_landfall_run !! 0%nat = Some (float_at 0 0 0 Active) ∧
   environment old_landfall_run !! 0%nat = Some (sea 1 0 1) ∧
   status (float_at 0 0 0 Active) = Active ∧
   feqb (land_binary_mask (sea 1 0 1)) (of_Z 1) = true ∧
   max_age_seconds (drift (config old_landfall_run)) = Some 5 ∧
   fgeb (fadd (age_seconds (float_at 0 0 0 Active))
              (time_step old_landfall_run)) 5 = true) ∧
  ∃ e', elements (exec (update plane_solvers) old_landfall_run) !! 0%nat =
          Some e' ∧
        fgeb (age_seconds e') 5 = true ∧
        status e' = Deactivated "stranded" ∧
        status e' ≠ Deactivated "retired".
Proof.
  split; [by repeat split |].
  exact (stranded_takes_precedence plane_solvers old_landfall_run
           0%nat (float_at 0 0 0 Active) (sea 1 0 1) 5
           eq_refl eq_refl eq_refl eq_refl eq_refl eq_refl).
Defined.

(** C8 (amended) on [stranded_run]. *)
Lemma inactive_keeps_status_witness :
  (elements stranded_run !! 0%nat =
     Some (float_at 0 5 0 (Deactivated "stranded")) ∧
   is_active (Deactivated "stranded") = false) ∧
  ∃ e', elements (exec (update plane_solvers) stranded_run) !! 0%nat =
          Some e' ∧
        status e' = Deactivated "stranded" ∧
        age_seconds e' = 15.
Proof.
  split; [by split |].
  exact (inactive_keeps_status plane_solvers stranded_run
           0%nat (float_at 0 5 0 (Deactivated "stranded")) eq_refl eq_refl).
Defined.

(** The wind solver of the plane scales the wind by the drift factor. *)
Lemma plane_wind_zero_factor (dt wx wy : Z) (p : Position Z) :
  wind_advector plane_solvers dt wx wy (of_Z 0) p = p.
Proof.
  destruct p as [x y d]. cbn. f_equal; lia.
Defined.

Lemma seed_kwargs_element :
  seed_kwargs !! "wind_drift_factor" = None ∧
  new_element (PassiveTracer_variables position_variables) seed_kwargs =
    Some seeded_attributes ∧
  seeded_attributes !! "wind_drift_factor" = Some 0.
Proof. repeat split; vm_compute; reflexivity. Defined.

(** C9 on row 0 of [seeded_run], the element seeded at (3, 4) beside an
    element with drift factor 1. *)
Lemma default_element_has_no_wind_drift_witness :
  ((∀ dt wx wy p, wind_advector plane_solvers dt wx wy (of_Z 0) p = p) ∧
   elements seeded_run !! 0%nat =
     Some (mkElement (mkPosition 3 4 0) 0 0 5 Active) ∧
   seed_kwargs !! "wind_drift_factor" = None ∧
   new_element (PassiveTracer_variables position_variables) seed_kwargs =
     Some seeded_attributes ∧
   seeded_attributes !! "wind_drift_factor" = Some 0) ∧
  wind_drift_factor (mkElement (mkPosition 3 4 0) 0 0 5 Active) = of_Z 0 ∧
  elements (advection_stage plane_solvers seeded_run) !! 0%nat =
    elements (exec (advect_ocean_current plane_solvers)
                (exec age_accrual seeded_run)) !! 0%nat ∧
  (∀ wx wy,
     horizontal <$>
       elements (exec (update plane_solvers) (with_wind wx wy seeded_run))
         !! 0%nat =
     horizontal <$> elements (exec (update plane_solvers) seeded_run) !! 0%nat) ∧
  (∀ wx wy,
     Forall (λ e', wind_drift_factor e' = 0) (elements seeded_run) →
     elements (exec (update plane_solvers) (with_wind wx wy seeded_run)) =
     elements (exec (update plane_solvers) seeded_run)) ∧
  (∀ kwargs m : gmap string Z,
     kwargs !! "wind_drift_factor" = None →
     new_element (PassiveTracer_variables position_variables) kwargs =
       Some m →
     m !! "wind_drift_factor" = Some (of_Z 0)) ∧
  (∀ kwargs m : gmap string Z,
     kwargs !! "age_seconds" = None →
     new_element (PassiveTracer_variables position_variables) kwargs =
       Some m →
     m !! "age_seconds" = Some (of_Z 0)).
Proof.
  split;
    [split; [exact plane_wind_zero_factor |];
     split; [reflexivity | exact seed_kwargs_element] |].
  exact (default_element_has_no_wind_drift plane_solvers position_variables
           seeded_run 0%nat (mkElement (mkPosition 3 4 0) 0 0 5 Active)
           plane_wind_zero_factor eq_refl
           (ex_intro _ seed_kwargs
              (ex_intro _ seeded_attributes seed_kwargs_element))).
Defined.

(** X2 on [aging_run]: at sea, of age 10 against a maximum of 5. *)
Lemma active_element_fate_witness :
  (elements aging_run !! 0%nat = Some (float_at 0 0 0 Active) ∧
   environment aging_run !! 0%nat = Some (sea 1 0 0) ∧
   status (float_at 0 0 0 Active) = Active) ∧
  ∃ e', elements (exec (update plane_solvers) aging_run) !! 0%nat = Some e' ∧
        status e' = Deactivated "retired".
Proof.
  split; [by repeat split |].
  exact (active_element_fate plane_solvers aging_run 0%nat
           (float_at 0 0 0 Active) (sea 1 0 0) eq_refl eq_refl eq_refl).
Defined.

(** X3 on [drifting_run], whose configuration sets no maximum age. *)
Lemma no_retirement_without_max_age_witness :
  max_age_seconds (drift (config drifting_run)) = None ∧
  (DeactivateElements "retired" ∉ trace (update plane_solvers) drifting_run) ∧
  ∀ i e e',
    elements drifting_run !! i = Some e →
    elements (exec (update plane_solvers) drifting_run) !! i = Some e' →
    status e' = Deactivated "retired" → status e = Deactivated "retired".
Proof.
  split; [reflexivity |].
  exact (no_retirement_without_max_age plane_solvers drifting_run eq_refl).
Defined.

(** X6 on [stranded_run], over two further calls. *)
Lemma calls_keep_inactive_witness :
  (elements stranded_run !! 0%nat =
     Some (float_at 0 5 0 (Deactivated "stranded")) ∧
   is_active (Deactivated "stranded") = false) ∧
  ∃ e', elements (calls plane_solvers
                    [([sea 0 0 1], [[2]]); ([sea 4 0 0], [[3]])]
                    stranded_run) !! 0%nat = Some e' ∧
        status e' = Deactivated "stranded".
Proof.
  split; [by split |].
  exact (calls_keep_inactive plane_solvers
           [([sea 0 0 1], [[2]]); ([sea 4 0 0], [[3]])] stranded_run 0%nat
           (float_at 0 5 0 (Deactivated "stranded")) eq_refl eq_refl).
Defined.


